(** * chat-ui: text generation against the default model

    A shallow embedding of

    - [src/lib/utils/streamToAsyncIterable.ts]  (the stream adapter),
    - [src/lib/server/models.ts]                (the zod model configuration),
    - [generateFromDefaultEndpoint]             (dispatch and post-processing),

    together with the properties the specification states about them.

    JavaScript strings are sequences of UTF-16 code units; they are modelled
    as lists of code units so that [trimEnd], [startsWith], [endsWith] and
    [slice] act on the same positions as in the engine. *)

From Stdlib Require Import ZArith NArith QArith Lia List String Ascii.
From stdpp Require Import base option list gmap.

Local Open Scope Z_scope.

(* ===================================================================== *)
(** * Part I: definitions                                                 *)
(* ===================================================================== *)

(** ** JavaScript strings *)

Definition jstring : Type := list N.

(** An ASCII literal as a JavaScript string. *)
Definition js (s : string) : jstring :=
  map N_of_ascii (list_ascii_of_string s).

(** ECMAScript WhiteSpace and LineTerminator code points: what
    [String.prototype.trimEnd] removes. *)
Definition isStrWhiteSpaceChar (c : N) : bool :=
  (N.eqb c 0x09 || N.eqb c 0x0A || N.eqb c 0x0B || N.eqb c 0x0C ||
   N.eqb c 0x0D || N.eqb c 0x20 || N.eqb c 0xA0 || N.eqb c 0x1680 ||
   (N.leb 0x2000 c && N.leb c 0x200A) ||
   N.eqb c 0x2028 || N.eqb c 0x2029 || N.eqb c 0x202F ||
   N.eqb c 0x205F || N.eqb c 0x3000 || N.eqb c 0xFEFF)%bool.

(** [s.trimEnd()] *)
Fixpoint trimEnd (s : jstring) : jstring :=
  match s with
  | [] => []
  | c :: r =>
      match trimEnd r with
      | [] => if isStrWhiteSpaceChar c then [] else [c]
      | r' => c :: r'
      end
  end.

(** [s.startsWith(p)] *)
Fixpoint startsWith (s p : jstring) {struct p} : bool :=
  match p, s with
  | [], _ => true
  | _ :: _, [] => false
  | b :: p', a :: s' => N.eqb a b && startsWith s' p'
  end.

(** [s.endsWith(p)]: the last [p.length] code units of [s] are [p]. *)
Definition endsWith (s p : jstring) : bool :=
  (Nat.leb (length p) (length s) &&
   startsWith (drop (length s - length p) s) p)%bool.

(** Relative index of [slice]: negative counts from the end, then clamp. *)
Definition relativeIndex (len i : Z) : Z :=
  if i <? 0 then Z.max (len + i) 0 else Z.min i len.

(** [s.slice(start, stop)] *)
Definition slice (s : jstring) (start stop : Z) : jstring :=
  let len := Z.of_nat (length s) in
  let from := relativeIndex len start in
  let to := relativeIndex len stop in
  take (Z.to_nat (to - from)) (drop (Z.to_nat from) s).

(** [s.slice(start)] *)
Definition sliceFrom (s : jstring) (start : Z) : jstring :=
  slice s start (Z.of_nat (length s)).

Definition jlength (s : jstring) : Z := Z.of_nat (length s).

(** ** Post-processing of the generated text *)

(** Modelled from the spec: [trimPrefix] of [$lib/utils/trimPrefix] is not
    among the sources. "Strip the echoed prompt prefix if the raw text
    begins with it." *)
Definition trimPrefix (input prefix : jstring) : jstring :=
  if startsWith input prefix then sliceFrom input (jlength prefix) else input.

(** Modelled from the spec: [trimSuffix] of [$lib/utils/trimSuffix] is not
    among the sources. "Strip a trailing canonical separator token if
    present." *)
Definition trimSuffix (input suffix : jstring) : jstring :=
  if endsWith input suffix
  then slice input 0 (jlength input - jlength suffix)
  else input.

Definition START_OF_TEXT : jstring := js "<|startoftext|>".
Definition END_OF_TEXT : jstring := js "<|endoftext|>".

(** Body of the [for (const stop of ...)] loop of
    [generateFromDefaultEndpoint]. *)
Definition stop_step (generated_text stop : jstring) : jstring :=
  if endsWith generated_text stop
  then trimEnd (slice generated_text 0 (- jlength stop))
  else generated_text.

Section PostProcessor.
(** [PUBLIC_SEP_TOKEN] of [$lib/constants/publicSepToken]; the constant is
    not among the sources and is kept as a parameter. *)
Variable PUBLIC_SEP_TOKEN : jstring.

(** Lines 131-142 of [generateFromDefaultEndpoint], called [clean] by the
    specification: [raw] is [results[0].generated_text], [stops] is
    [newParameters?.stop ?? []]. *)
Definition clean (raw prompt : jstring) (stops : list jstring) : jstring :=
  let generated_text :=
    trimEnd
      (trimSuffix
         (trimPrefix (trimPrefix raw START_OF_TEXT) prompt)
         PUBLIC_SEP_TOKEN) in
  fold_left stop_step (stops ++ [END_OF_TEXT]) generated_text.

(** The five steps of the specification, one definition per step. Step 5
    follows the specification's words: the matched suffix is removed. *)
Definition step1_strip_bos (t : jstring) : jstring :=
  if startsWith t START_OF_TEXT then drop (length START_OF_TEXT) t else t.
Definition step2_strip_prompt (prompt t : jstring) : jstring :=
  if startsWith t prompt then drop (length prompt) t else t.
Definition step3_strip_sep (t : jstring) : jstring :=
  if endsWith t PUBLIC_SEP_TOKEN
  then take (length t - length PUBLIC_SEP_TOKEN) t else t.
Definition step4_trim (t : jstring) : jstring := trimEnd t.
Definition step5_one (t stop : jstring) : jstring :=
  if endsWith t stop then trimEnd (take (length t - length stop) t) else t.
Definition step5_stops (stops : list jstring) (t : jstring) : jstring :=
  fold_left step5_one (stops ++ [END_OF_TEXT]) t.

Definition clean_spec (raw prompt : jstring) (stops : list jstring)
  : jstring :=
  step5_stops stops
    (step4_trim (step3_strip_sep (step2_strip_prompt prompt
       (step1_strip_bos raw)))).

(** The same steps with stop-sequence trimming moved before the
    prompt-prefix stripping; used to show that the order is observable. *)
Definition clean_stops_first (raw prompt : jstring) (stops : list jstring)
  : jstring :=
  step4_trim (step3_strip_sep (step2_strip_prompt prompt
    (step1_strip_bos (step5_stops stops raw)))).
End PostProcessor.


(** ** StreamAdapter: [streamToAsyncIterable] *)

Module StreamAdapter.
Section Adapter.
(** Values carried by the stream and errors a read can reject with. *)
Variables (T E : Type).

(** What one [await reader.read()] gives: [{done: false, value}],
    [{done: true}], or a rejection. *)
Inductive read_result : Type :=
| ReadValue (value : T)
| ReadDone
| ReadRejects (e : E).

(** The underlying pull-based reader: the outcome of its k-th read. *)
Definition reader : Type := nat -> read_result.

(** The stream, and the calls made on it so far. *)
Record stream : Type := mkStream {
  locked : bool;            (* a reader holds the stream's lock *)
  reads : nat;              (* calls of reader.read() *)
  getReader_calls : nat;    (* successful stream.getReader() *)
  releaseLock_calls : nat   (* calls of reader.releaseLock() *)
}.

(** Where the generator body stands between two requests. *)
Inductive generator : Type :=
| SuspendedStart     (* created, body not entered *)
| SuspendedYield     (* parked at [yield value], inside [try] *)
| Completed.

(** What the consumer asks of the iterator. *)
Inductive request : Type :=
| Next
| Return
| Throw (e : E).

Inductive thrown : Type :=
| StreamLocked       (* TypeError of getReader() on a locked stream *)
| Raised (e : E).

(** What the consumer gets back. *)
Inductive response : Type :=
| Yielded (value : T)      (* {done: false, value} *)
| Finished                 (* {done: true} *)
| Rejected (t : thrown).

(** [reader.releaseLock()], the [finally] block. *)
Definition releaseLock (s : stream) : stream :=
  mkStream false (reads s) (getReader_calls s) (S (releaseLock_calls s)).

(** One turn of [while (true)]: read, then return or yield. Every way
    out of the [try] block passes through [finally]. *)
Definition loop_turn (rd : reader) (s : stream)
  : generator * stream * response :=
  let s1 := mkStream (locked s) (S (reads s)) (getReader_calls s)
              (releaseLock_calls s) in
  match rd (reads s) with
  | ReadValue v => (SuspendedYield, s1, Yielded v)
  | ReadDone => (Completed, releaseLock s1, Finished)
  | ReadRejects e => (Completed, releaseLock s1, Rejected (Raised e))
  end.

(** The generator object answering one request. *)
Definition resume (rd : reader) (g : generator) (s : stream) (r : request)
  : generator * stream * response :=
  match g, r with
  | SuspendedStart, Next =>
      (* const reader = stream.getReader(); outside [try] *)
      if locked s then (Completed, s, Rejected StreamLocked)
      else loop_turn rd
             (mkStream true (reads s) (S (getReader_calls s))
                (releaseLock_calls s))
  | SuspendedStart, Return => (Completed, s, Finished)
  | SuspendedStart, Throw e => (Completed, s, Rejected (Raised e))
  | SuspendedYield, Next => loop_turn rd s
  | SuspendedYield, Return => (Completed, releaseLock s, Finished)
  | SuspendedYield, Throw e =>
      (Completed, releaseLock s, Rejected (Raised e))
  | Completed, Next => (Completed, s, Finished)
  | Completed, Return => (Completed, s, Finished)
  | Completed, Throw e => (Completed, s, Rejected (Raised e))
  end.

(** Any sequence of requests, one after the other (an async generator
    queues its requests). *)
Fixpoint run (rd : reader) (g : generator) (s : stream)
    (rs : list request) : generator * stream :=
  match rs with
  | [] => (g, s)
  | r :: rs' =>
      let '(g', s', _) := resume rd g s r in run rd g' s' rs'
  end.

(** What the body of a [for await] loop does with a value. *)
Inductive body_action : Type :=
| Continue
| Break
| ThrowInBody (e : E).

(** How a [for await (const v of streamToAsyncIterable(stream))] ends. *)
Inductive loop_exit : Type :=
| ExitDone                   (* the reader reported done *)
| ExitBreak                  (* the consumer stopped early *)
| ExitBodyError (e : E)      (* the loop body threw *)
| ExitIteratorError (t : thrown)
| StillIterating.            (* the consumer has not left the loop *)

(** The consumer: [body] lists what the loop body does with the first,
    second, ... value. A [for await] loop asks [next()], and on leaving
    the body abruptly asks [return()]. *)
Fixpoint forAwait_from (rd : reader) (g : generator) (s : stream)
    (body : list body_action) : loop_exit * generator * stream :=
  match resume rd g s Next with
  | (g', s', Yielded _) =>
      match body with
      | [] => (StillIterating, g', s')
      | Continue :: body' => forAwait_from rd g' s' body'
      | Break :: _ =>
          let '(g'', s'', _) := resume rd g' s' Return in
          (ExitBreak, g'', s'')
      | ThrowInBody e :: _ =>
          let '(g'', s'', _) := resume rd g' s' Return in
          (ExitBodyError e, g'', s'')
      end
  | (g', s', Finished) => (ExitDone, g', s')
  | (g', s', Rejected t) => (ExitIteratorError t, g', s')
  end.

(** A stream nobody has read from yet. *)
Definition fresh_stream : stream := mkStream false 0 0 0.

Definition forAwait (rd : reader) (body : list body_action)
  : loop_exit * generator * stream :=
  forAwait_from rd SuspendedStart fresh_stream body.

(** The generator is being iterated: it has not taken a reader yet, or
    it holds the one reader it took and has not released it. *)
Definition iterating (g : generator) (s : stream) : Prop :=
  match g with
  | SuspendedStart =>
      locked s = false /\ getReader_calls s = 0%nat /\
      releaseLock_calls s = 0%nat
  | SuspendedYield =>
      locked s = true /\ getReader_calls s = 1%nat /\
      releaseLock_calls s = 0%nat
  | Completed => False
  end.

(** The generator is over, and its reader was released once. *)
Definition released_once (g : generator) (s : stream) : Prop :=
  g = Completed /\ locked s = false /\ getReader_calls s = 1%nat /\
  releaseLock_calls s = 1%nat.

(** Releases match acquisitions, whatever the consumer asks and whether
    or not the stream could be locked at all. *)
Definition balanced (g : generator) (s : stream) : Prop :=
  match g with
  | SuspendedStart =>
      getReader_calls s = 0%nat /\ releaseLock_calls s = 0%nat
  | SuspendedYield =>
      getReader_calls s = 1%nat /\ releaseLock_calls s = 0%nat
  | Completed =>
      releaseLock_calls s = getReader_calls s /\
      (getReader_calls s <= 1)%nat
  end.
End Adapter.

Arguments Yielded {T E} value.
Arguments Finished {T E}.
Arguments Rejected {T E} t.

Arguments ReadValue {T E} value.
Arguments ReadDone {T E}.
Arguments ReadRejects {T E} e.
Arguments Next {E}.
Arguments Return {E}.
Arguments Throw {E} e.
Arguments Continue {E}.
Arguments Break {E}.
Arguments ThrowInBody {E} e.
Arguments ExitDone {E}.
Arguments ExitBreak {E}.
Arguments ExitBodyError {E} e.
Arguments ExitIteratorError {E} t.
Arguments StillIterating {E}.
Arguments StreamLocked {E}.
Arguments Raised {E} e.
Arguments resume {T E} rd g s r.
Arguments run {T E} rd g s rs.
Arguments loop_turn {T E} rd s.
Arguments forAwait_from {T E} rd g s body.
Arguments forAwait {T E} rd body.
End StreamAdapter.

(** ** JavaScript values *)

(** The values that flow through configuration and requests: what
    [JSON.parse] builds, plus [undefined]. Numbers are the rationals that
    JSON number literals denote. *)
#[warnings="-register-all"]
Inductive jsval : Type :=
| JUndef
| JNull
| JBool (b : bool)
| JNum (q : Q)
| JStr (s : jstring)
| JArr (items : list jsval)
| JObj (props : gmap jstring jsval).

(** [o[key]] on a plain object: a missing property reads [undefined]. *)
Definition get (o : gmap jstring jsval) (key : string) : jsval :=
  default JUndef (o !! js key).

(** What a failed call throws or rejects with. *)
Inductive exn : Type :=
| Error (message : jstring)       (* new Error(message) *)
| TypeError                       (* thrown by the engine or the platform *)
| SyntaxError                     (* JSON.parse *)
| Rejection (reason : jstring).   (* network failure, abort, client error *)

Inductive outcome (A : Type) : Type :=
| Returned (value : A)
| Thrown (e : exn).
Arguments Returned {A} value.
Arguments Thrown {A} e.

(** ** The OpenAI-compatible stream: [start(controller)] and [cancel()] *)

Module OpenAIStream.
(** A completion chunk, as far as the code reads it:
    [chunk.choices[0].text]. *)
Record Choice : Type := mkChoice { text : jstring }.
Record Chunk : Type := mkChunk { choices : list Choice }.

(** Where the [start] callback stands. It is suspended only inside
    [for await], with one [completion.next()] outstanding. *)
Inductive start_status : Type :=
| Pumping                 (* awaiting the chunk it asked for *)
| StartReturned           (* loop left, controller.close() done *)
| StartRejected (e : exn).

Record pump : Type := mkPump {
  status : start_status;
  aborted : bool;             (* abortController.signal.aborted *)
  next_calls : nat;           (* chunk requests: completion.next() *)
  return_calls : nat;         (* completion.return() on leaving early *)
  enqueued : list jstring     (* controller.enqueue(...), oldest first *)
}.

(** What can happen while [start] is suspended. JavaScript runs each
    reaction to completion, so these are the only points where the
    signal can change between two statements of the loop. *)
Inductive event : Type :=
| ChunkArrives (c : Chunk)     (* the outstanding next() gives a chunk *)
| CompletionEnds               (* the outstanding next() gives done *)
| CompletionFails (e : exn)    (* the outstanding next() rejects *)
| StreamCancelled.             (* the consumer cancels the stream *)

(** [controller.close()] after the loop: the stream was already closed
    by [cancel()] exactly when the signal is aborted, and closing a
    closed stream throws. *)
Definition close (p : pump) : pump :=
  mkPump (if aborted p then StartRejected TypeError else StartReturned)
    (aborted p) (next_calls p) (return_calls p) (enqueued p).

(** Leaving the loop body abruptly: [for await] calls
    [completion.return()] first. *)
Definition leave (p : pump) : pump :=
  mkPump (status p) (aborted p) (next_calls p) (S (return_calls p))
    (enqueued p).

Definition fail (e : exn) (p : pump) : pump :=
  mkPump (StartRejected e) (aborted p) (next_calls p) (return_calls p)
    (enqueued p).

Definition step (p : pump) (ev : event) : pump :=
  match status p with
  | Pumping =>
      match ev with
      | ChunkArrives c =>
          if aborted p then close (leave p)            (* break *)
          else match choices c with
               | [] => fail TypeError (leave p)  (* choices[0] undefined *)
               | ch :: _ =>
                   (* enqueue, then the loop asks for the next chunk *)
                   mkPump Pumping (aborted p) (S (next_calls p))
                     (return_calls p) (enqueued p ++ [text ch])
               end
      | CompletionEnds => close p
      | CompletionFails e => fail e p
      | StreamCancelled =>                         (* cancel(): abort() *)
          mkPump Pumping true (next_calls p) (return_calls p)
            (enqueued p)
      end
  | _ => p    (* nothing outstanding; a settled stream is not cancelled *)
  end.

Definition run (p : pump) (evs : list event) : pump :=
  fold_left step evs p.

(** [new ReadableStream({start, cancel})] calls [start] at once: the
    first chunk request is out before anything else can happen. *)
Definition started : pump := mkPump Pumping false 1 0 [].

Definition is_delivery (ev : event) : bool :=
  match ev with StreamCancelled => false | _ => true end.

(** A completion stream consumed to its end, with no cancellation. *)
Record Completion : Type := mkCompletion {
  chunks : list Chunk;
  failure : option exn      (* how the stream ends after its chunks *)
}.

Definition events_of (c : Completion) : list event :=
  map ChunkArrives (chunks c) ++
  [match failure c with
   | Some e => CompletionFails e
   | None => CompletionEnds
   end].
End OpenAIStream.

(** ** Endpoints and models *)

Inductive completions_type : Type := completions | chat_completions.

(** [z.infer<typeof endpoint>]: the host-tagged union of [models.ts]. *)
Inductive Endpoint : Type :=
| OpenAICompatible (baseURL : jstring) (apiKey : option jstring)
    (type : completions_type) (weight : Q)
| SageMaker (url accessKey secretKey : jstring)
    (sessionToken : option jstring) (weight : Q)
| TGI (host_given : bool) (url authorization : jstring) (weight : Q).

(** The fields of a processed model that [generateFromDefaultEndpoint]
    reads: [id] (possibly nullish), [name] and [parameters]. *)
Record BackendModel : Type := mkBackendModel {
  model_id : option jstring;
  model_name : jstring;
  model_parameters : gmap jstring jsval
}.

(** ** Generation *)

Module Generation.
Import OpenAIStream.

(** The calls that leave the process. The JSON body is kept as the
    object handed to [JSON.stringify]. *)
Inductive upstream_call : Type :=
| AwsFetch (url accessKeyId secretAccessKey : jstring)
    (sessionToken : option jstring) (body : gmap jstring jsval)
| CompletionsCreate (apiKey : jstring) (baseURL : option jstring)
    (model prompt : jstring) (max_tokens stop temperature : jsval)
| Fetch (url authorization : jstring) (body : gmap jstring jsval).

Inductive body_chunk : Type :=
| Bytes (b : list Byte.byte)     (* a Uint8Array off the network *)
| Text (s : jstring).            (* a string enqueued by [start] *)

(** A response body read to its end. *)
Record Body : Type := mkBody {
  body_chunks : list body_chunk;
  body_failure : option exn      (* a read that rejects after them *)
}.

Record Response : Type := mkResponse {
  resp_status : Z;
  resp_body : option Body
}.

(** [resp.ok] *)
Definition ok (r : Response) : bool :=
  (200 <=? resp_status r) && (resp_status r <=? 299).

(** The platform and the backends the function runs against. *)
Record Env : Type := mkEnv {
  PUBLIC_SEP_TOKEN : jstring;
  (** [new TextDecoder()] and [decoder.decode(bytes, {stream: true})] *)
  TextDecoder : Type;
  new_TextDecoder : TextDecoder;
  decode : TextDecoder -> list Byte.byte -> TextDecoder * jstring;
  (** UTF-8 decoding of a whole body, as [resp.text()] does *)
  utf8_decode : list Byte.byte -> jstring;
  (** [JSON.parse]; [None] is a SyntaxError *)
  JSON_parse : jstring -> option jsval;
  (** what the network answers to the request of a call, sent for the
      [i]-th time (counting from 0); [Thrown] is a [fetch] that rejects *)
  network_reply : upstream_call -> nat -> outcome Response;
  (** what [openai.completions.create] settles with *)
  create_reply : upstream_call -> outcome Completion
}.

(** *** The requests behind a call

    [fetch] sends its request once. [aws.fetch] is the method of the
    aws4fetch client, which lines 37-42 build without a [retries]
    option; the client then takes 10. Its loop is
    [for (let i = 0; i <= this.retries; i++)]: sign and send; at
    [i === this.retries] return what was sent without awaiting it;
    otherwise await the answer and return it if
    [res.status < 500 && res.status !== 429], else wait and go round
    again. *)
Definition aws_retries : nat := 10.

(** [res.status < 500 && res.status !== 429] *)
Definition settles (res : Response) : bool :=
  (resp_status res <? 500) && negb (resp_status res =? 429).

(** The loop from round [i] on, with [left] rounds after this one: what
    [aws.fetch] settles with, and how many requests were sent in all. *)
Fixpoint AwsClient_fetch_from (send : nat -> outcome Response)
    (i left : nat) : outcome Response * nat :=
  match left with
  | O => (send i, S i)
  | S left' =>
      match send i with
      | Returned res =>
          if settles res then (Returned res, S i)
          else AwsClient_fetch_from send (S i) left'
      | Thrown e => (Thrown e, S i)
      end
  end.

Definition AwsClient_fetch (send : nat -> outcome Response)
  : outcome Response * nat :=
  AwsClient_fetch_from send 0 aws_retries.

(** What [fetch] and [aws.fetch] settle with. *)
Definition fetch_reply (env : Env) (c : upstream_call)
  : outcome Response :=
  match c with
  | AwsFetch _ _ _ _ _ => (AwsClient_fetch (network_reply env c)).1
  | _ => network_reply env c 0
  end.

(** The requests that a call puts on the network. Those of the openai
    client are its own affair and are not counted here. *)
Definition requests_sent (env : Env) (c : upstream_call) : option nat :=
  match c with
  | AwsFetch _ _ _ _ _ => Some (AwsClient_fetch (network_reply env c)).2
  | Fetch _ _ _ => Some 1%nat
  | CompletionsCreate _ _ _ _ _ _ _ => None
  end.

(** Code that may throw and that records its upstream calls. *)
Definition Gen (A : Type) : Type :=
  list upstream_call -> outcome A * list upstream_call.

Definition ret {A} (a : A) : Gen A := fun log => (Returned a, log).
Definition throw {A} (e : exn) : Gen A := fun log => (Thrown e, log).
Definition bind {A B} (m : Gen A) (k : A -> Gen B) : Gen B :=
  fun log =>
    match m log with
    | (Returned a, log') => k a log'
    | (Thrown e, log') => (Thrown e, log')
    end.
Definition lift {A} (o : outcome A) : Gen A := fun log => (o, log).
(** An upstream call: logged, then settled by the backend. *)
Definition upstream {A} (reply : upstream_call -> outcome A)
    (c : upstream_call) : Gen A :=
  fun log => (reply c, log ++ [c]).

Notation "'let!' x ':=' m 'in' k" := (bind m (fun x => k))
  (at level 10, x name, m at level 100, k at level 200).

(** [{...defaultModel.parameters, ...parameters, return_full_text: false}] *)
Definition newParameters (defaults : gmap jstring jsval)
    (parameters : option (gmap jstring jsval)) : gmap jstring jsval :=
  <[js "return_full_text" := JBool false]>
    (default ∅ parameters ∪ defaults).

(** [newParameters?.stop ?? []]. [stop] is declared [string[]] (optional)
    both in [Parameters] and in the zod schema; a value of another type
    is outside the typed program and is read as no stop sequence. *)
Definition stop_sequences (params : gmap jstring jsval) : list jstring :=
  match get params "stop" with
  | JArr items =>
      omap (fun v => match v with JStr s => Some s | _ => None end) items
  | _ => []
  end.

(** [{...newParameters, inputs: prompt}] *)
Definition request_body (params : gmap jstring jsval) (prompt : jstring)
  : gmap jstring jsval :=
  <[js "inputs" := JStr prompt]> params.

(** The one upstream call of each branch of the dispatch. The
    OpenAI-compatible variant has no [url] field, so
    [randomEndpoint.url] reads [undefined] there. *)
Definition upstream_request (defaultModel : BackendModel)
    (randomEndpoint : Endpoint) (params : gmap jstring jsval)
    (prompt : jstring) : upstream_call :=
  match randomEndpoint with
  | SageMaker url accessKey secretKey sessionToken _ =>
      AwsFetch url accessKey secretKey sessionToken
        (request_body params prompt)
  | OpenAICompatible _ apiKey _ _ =>
      CompletionsCreate
        (default (js "sk-") apiKey)
        None
        (default (model_name defaultModel) (model_id defaultModel))
        prompt
        (get params "max_new_tokens") (get params "stop")
        (get params "temperature")
  | TGI _ url authorization _ =>
      Fetch url authorization (request_body params prompt)
  end.

Definition is_openai (e : Endpoint) : bool :=
  match e with OpenAICompatible _ _ _ _ => true | _ => false end.

Definition is_sagemaker (e : Endpoint) : bool :=
  match e with SageMaker _ _ _ _ _ => true | _ => false end.

(** The body of the [Response] built around [readableStream]: what
    [start] enqueued, and the error the stream ends with if [start]
    rejected. *)
Definition body_of_completion (c : Completion) : Body :=
  let p := run started (events_of c) in
  mkBody (map Text (enqueued p))
    (match status p with StartRejected e => Some e | _ => None end).

Section WithEnv.
Variable env : Env.

(** [await resp.text()] *)
Fixpoint body_bytes (cs : list body_chunk)
  : outcome (list Byte.byte) :=
  match cs with
  | [] => Returned []
  | Bytes b :: cs' =>
      match body_bytes cs' with
      | Returned bs => Returned (b ++ bs)
      | Thrown e => Thrown e
      end
  | Text _ :: _ => Thrown TypeError
  end.

Definition Response_text (r : Response) : outcome jstring :=
  match resp_body r with
  | None => Returned []
  | Some b =>
      match body_bytes (body_chunks b), body_failure b with
      | Thrown e, _ => Thrown e
      | Returned _, Some e => Thrown e
      | Returned bs, None => Returned (utf8_decode env bs)
      end
  end.

(** The [while (!isDone)] loop: each read appends the decoded chunk;
    the last read gives [done] and decodes [undefined], that is, no
    bytes. Decoding a string chunk is a TypeError. *)
Fixpoint read_loop (decoder : TextDecoder env) (result : jstring)
    (cs : list body_chunk) (failure : option exn) : outcome jstring :=
  match cs with
  | [] =>
      match failure with
      | Some e => Thrown e
      | None => Returned (result ++ (decode env decoder []).2)
      end
  | Bytes b :: cs' =>
      let '(decoder', t) := decode env decoder b in
      read_loop decoder' (result ++ t) cs' failure
  | Text _ :: _ => Thrown TypeError
  end.

Definition read_body (b : Body) : outcome jstring :=
  read_loop (new_TextDecoder env) [] (body_chunks b) (body_failure b).

(** [results[0]] *)
Definition index0 (results : jsval) : outcome jsval :=
  match results with
  | JUndef | JNull => Thrown TypeError
  | JArr items => Returned (default JUndef (head items))
  | JObj props => Returned (get props "0")
  | JStr s => Returned (match s with [] => JUndef | c :: _ => JStr [c] end)
  | JBool _ | JNum _ => Returned JUndef
  end.

(** [first.generated_text] *)
Definition generated_text_of (first : jsval) : outcome jsval :=
  match first with
  | JUndef | JNull => Thrown TypeError
  | JObj props => Returned (get props "generated_text")
  | _ => Returned JUndef
  end.

(** The string helpers are called on the value as a string: anything
    else has no [startsWith] to call. *)
Definition as_string (v : jsval) : outcome jstring :=
  match v with
  | JStr s => Returned s
  | _ => Thrown TypeError
  end.

(** [randomEndpoint] is what [modelEndpoint(defaultModel)] drew; the
    log starts empty and ends with the upstream calls made. *)
Definition generateFromDefaultEndpoint (defaultModel : BackendModel)
    (randomEndpoint : Endpoint) (prompt : jstring)
    (parameters : option (gmap jstring jsval)) : Gen jstring :=
  let params := newParameters (model_parameters defaultModel)
                  parameters in
  let call := upstream_request defaultModel randomEndpoint params
                prompt in
  let! resp :=
    (if is_openai randomEndpoint
     then let! completion := upstream (create_reply env) call in
          ret (mkResponse 200 (Some (body_of_completion completion)))
     else upstream (fetch_reply env) call) in
  if negb (ok resp)
  then let! message := lift (Response_text resp) in
       throw (Error message)
  else
    match resp_body resp with
    | None => throw (Error (js "Response body is empty"))
    | Some body =>
        let! result := lift (read_body body) in
        match JSON_parse env result with
        | None => throw SyntaxError
        | Some results =>
            let! first := lift (index0 results) in
            let! raw := lift (generated_text_of first) in
            let! generated_text := lift (as_string raw) in
            ret (clean (PUBLIC_SEP_TOKEN env) generated_text prompt
                   (stop_sequences params))
        end
    end.

(** What the function does with the body text once it has it, as one
    pure function. *)
Definition after_parse (prompt : jstring)
    (params : gmap jstring jsval) (result : jstring)
  : outcome jstring :=
  match JSON_parse env result with
  | None => Thrown SyntaxError
  | Some results =>
      match index0 results with
      | Thrown e => Thrown e
      | Returned first =>
          match generated_text_of first with
          | Thrown e => Thrown e
          | Returned raw =>
              match as_string raw with
              | Thrown e => Thrown e
              | Returned generated_text =>
                  Returned (clean (PUBLIC_SEP_TOKEN env) generated_text
                              prompt (stop_sequences params))
              end
          end
      end
  end.
End WithEnv.
End Generation.

(** ** Configuration: the zod schemas of [models.ts] *)

Module Zod.
Inductive path_item : Type :=
| Key (k : jstring)
| Index (i : nat).

Inductive issue_code : Type :=
| invalid_type
| invalid_literal
| invalid_union
| invalid_string
| too_small
| too_big.

(** One entry of a ZodError: what is wrong, and where. *)
Record ZodIssue : Type := mkIssue {
  code : issue_code;
  path : list path_item
}.

(** What parsing one value gives. [Dirty]: a check failed and parsing
    went on; [Invalid]: the value has the wrong type; [Escapes]: a
    ZodError thrown by a [parse] inside a [transform], which leaves the
    whole parse at once. *)
Inductive parsed (A : Type) : Type :=
| Valid (a : A)
| Dirty (issues : list ZodIssue)
| Invalid (issues : list ZodIssue)
| Escapes (issues : list ZodIssue).
Arguments Valid {A} a.
Arguments Dirty {A} issues.
Arguments Invalid {A} issues.
Arguments Escapes {A} issues.

Definition issues_of {A} (r : parsed A) : list ZodIssue :=
  match r with
  | Valid _ => []
  | Dirty i | Invalid i | Escapes i => i
  end.

Definition schema (A : Type) : Type := list path_item -> jsval -> parsed A.

Definition fmap {A B} (f : A -> B) (r : parsed A) : parsed B :=
  match r with
  | Valid a => Valid (f a)
  | Dirty i => Dirty i
  | Invalid i => Invalid i
  | Escapes i => Escapes i
  end.

(** Two parts of one object or array: every part is parsed and the
    issues add up; one invalid part makes the whole invalid. *)
Definition ap {A B} (f : parsed (A -> B)) (x : parsed A) : parsed B :=
  match f, x with
  | Escapes i, _ => Escapes i
  | _, Escapes j => Escapes j
  | Valid g, Valid a => Valid (g a)
  | Invalid i, _ => Invalid (i ++ issues_of x)
  | _, Invalid j => Invalid (issues_of f ++ j)
  | _, _ => Dirty (issues_of f ++ issues_of x)
  end.

Infix "<*>" := ap (at level 61, left associativity).

(** [.parse(data)]: the value, or a thrown ZodError. *)
Definition parse {A} (s : schema A) (data : jsval)
  : A + list ZodIssue :=
  match s [] data with
  | Valid a => inl a
  | Dirty i | Invalid i | Escapes i => inr i
  end.

Inductive string_check : Type :=
| min1       (* .min(1) *)
| url.       (* .url() *)

Inductive number_check : Type :=
| nmin (q : Q)      (* .min(q) *)
| nmax (q : Q)      (* .max(q) *)
| int               (* .int() *)
| positive.         (* .positive() *)

Definition is_int (q : Q) : bool :=
  Z.rem (Qnum q) (Zpos (Qden q)) =? 0.

Definition number_issue (c : number_check) (q : Q) : option issue_code :=
  match c with
  | nmin m => if Qle_bool m q then None else Some too_small
  | nmax m => if Qle_bool q m then None else Some too_big
  | int => if is_int q then None else Some invalid_type
  | positive => if Qle_bool q 0 then Some too_small else None
  end.

Definition checked {A} (a : A) (codes : list issue_code)
    (p : list path_item) : parsed A :=
  match codes with
  | [] => Valid a
  | _ => Dirty (map (fun c => mkIssue c p) codes)
  end.

Section Schemas.
(** [new URL(s)] does not throw. *)
Variable is_url : jstring -> bool.
(** [$env/static/private] *)
Variables HF_ACCESS_TOKEN OPENAI_API_KEY : jstring.

Definition string_issue (c : string_check) (s : jstring)
  : option issue_code :=
  match c with
  | min1 => if (length s <? 1)%nat then Some too_small else None
  | url => if is_url s then None else Some invalid_string
  end.

(** [z.string()] with its checks *)
Definition z_string (checks : list string_check) : schema jstring :=
  fun p data =>
    match data with
    | JStr s => checked s (omap (fun c => string_issue c s) checks) p
    | _ => Invalid [mkIssue invalid_type p]
    end.

(** [z.number()] with its checks *)
Definition z_number (checks : list number_check) : schema Q :=
  fun p data =>
    match data with
    | JNum q => checked q (omap (fun c => number_issue c q) checks) p
    | _ => Invalid [mkIssue invalid_type p]
    end.

(** [z.literal("...")], giving [a] *)
Definition z_literal {A} (lit : string) (a : A) : schema A :=
  fun p data =>
    match data with
    | JStr s =>
        if bool_decide (s = js lit) then Valid a
        else Invalid [mkIssue invalid_literal p]
    | _ => Invalid [mkIssue invalid_literal p]
    end.

(** [z.undefined()], giving [a] *)
Definition z_undefined {A} (a : A) : schema A :=
  fun p data =>
    match data with
    | JUndef => Valid a
    | _ => Invalid [mkIssue invalid_type p]
    end.

(** [.optional()] *)
Definition z_optional {A} (s : schema A) : schema (option A) :=
  fun p data =>
    match data with
    | JUndef => Valid None
    | _ => fmap Some (s p data)
    end.

(** [.default(d)]: the default goes through the inner schema. *)
Definition z_default {A} (d : jsval) (s : schema A) : schema A :=
  fun p data =>
    match data with
    | JUndef => s p d
    | _ => s p data
    end.

(** [z.union([...])]: the first valid option; failing that the first
    dirty one; failing that [invalid_union]. *)
Fixpoint union_from {A} (dirty : option (list ZodIssue))
    (options : list (schema A)) : schema A :=
  fun p data =>
    match options with
    | [] =>
        match dirty with
        | Some i => Dirty i
        | None => Invalid [mkIssue invalid_union p]
        end
    | s :: rest =>
        match s p data with
        | Valid a => Valid a
        | Escapes i => Escapes i
        | Dirty i =>
            union_from (Some (default i dirty)) rest p data
        | Invalid _ => union_from dirty rest p data
        end
    end.
Definition z_union {A} (options : list (schema A)) : schema A :=
  union_from None options.

(** [z.array(s)] *)
Fixpoint array_items {A} (s : schema A) (p : list path_item) (i : nat)
    (items : list jsval) : parsed (list A) :=
  match items with
  | [] => Valid []
  | x :: rest =>
      Valid cons <*> s (p ++ [Index i]) x
                 <*> array_items s p (S i) rest
  end.
Definition z_array {A} (s : schema A) : schema (list A) :=
  fun p data =>
    match data with
    | JArr items => array_items s p 0 items
    | _ => Invalid [mkIssue invalid_type p]
    end.

(** One key of a [z.object] shape: the schema runs on [data[key]]. *)
Definition field {A : Type} (props : gmap jstring jsval) (p : list path_item)
    (key : string) (s : schema A) : parsed A :=
  s (p ++ [Key (js key)]) (get props key).

(** [z.object({...})] around the parsing of its keys *)
Definition z_object {A : Type}
    (shape : gmap jstring jsval -> list path_item -> parsed A)
  : schema A :=
  fun p data =>
    match data with
    | JObj props => shape props p
    | _ => Invalid [mkIssue invalid_type p]
    end.

(** *** Endpoints *)

Definition weight_schema : schema Q :=
  z_default (JNum 1) (z_number [int; positive]).

(** [openAICompatibleEndpoint.merge(commonEndpoint)] *)
Definition openAICompatibleEndpoint : schema Endpoint :=
  z_object (fun o p =>
    Valid (fun (_ : unit) baseURL apiKey type weight =>
             OpenAICompatible baseURL apiKey type weight)
    <*> field o p "host" (z_literal "openai-compatible" tt)
    <*> field o p "baseURL"
          (z_default (JStr (js "https://api.openai.com/v1"))
             (z_string [url]))
    <*> field o p "apiKey"
          (z_default (JStr OPENAI_API_KEY) (z_optional (z_string [])))
    <*> field o p "type"
          (z_default (JStr (js "chat_completions"))
             (z_union [z_literal "completions" completions;
                       z_literal "chat_completions" chat_completions]))
    <*> field o p "weight" weight_schema).

(** [sagemakerEndpoint.merge(commonEndpoint)] *)
Definition sagemakerEndpoint : schema Endpoint :=
  z_object (fun o p =>
    Valid (fun (_ : unit) url accessKey secretKey sessionToken weight =>
             SageMaker url accessKey secretKey sessionToken weight)
    <*> field o p "host" (z_literal "sagemaker" tt)
    <*> field o p "url" (z_string [url])
    <*> field o p "accessKey" (z_string [min1])
    <*> field o p "secretKey" (z_string [min1])
    <*> field o p "sessionToken" (z_optional (z_string []))
    <*> field o p "weight" weight_schema).

(** [tgiEndpoint.merge(commonEndpoint)] *)
Definition tgiEndpoint : schema Endpoint :=
  z_object (fun o p =>
    Valid (fun host_given url authorization weight =>
             TGI host_given url authorization weight)
    <*> field o p "host"
          (z_union [z_literal "tgi" true; z_undefined false])
    <*> field o p "url" (z_string [url])
    <*> field o p "authorization"
          (z_default (JStr (js "Bearer " ++ HF_ACCESS_TOKEN))
             (z_string [min1]))
    <*> field o p "weight" weight_schema).

(** [endpoint]: the union of the three *)
Definition endpoint : schema Endpoint :=
  z_union [openAICompatibleEndpoint; sagemakerEndpoint; tgiEndpoint].

Definition opt_prop (key : string) (v : option jstring)
    (o : gmap jstring jsval) : gmap jstring jsval :=
  match v with
  | Some s => <[js key := JStr s]> o
  | None => o
  end.

(** The object a parsed endpoint is, as the transform receives it. *)
Definition endpoint_data (e : Endpoint) : jsval :=
  match e with
  | OpenAICompatible baseURL apiKey type weight =>
      JObj (<[js "host" := JStr (js "openai-compatible")]>
           (<[js "baseURL" := JStr baseURL]>
           (opt_prop "apiKey" apiKey
           (<[js "type" :=
                JStr (match type with
                      | completions => js "completions"
                      | chat_completions => js "chat_completions"
                      end)]>
           (<[js "weight" := JNum weight]> ∅)))))
  | SageMaker u accessKey secretKey sessionToken weight =>
      JObj (<[js "host" := JStr (js "sagemaker")]>
           (<[js "url" := JStr u]>
           (<[js "accessKey" := JStr accessKey]>
           (<[js "secretKey" := JStr secretKey]>
           (opt_prop "sessionToken" sessionToken
           (<[js "weight" := JNum weight]> ∅))))))
  | TGI host_given u authorization weight =>
      JObj ((if host_given
             then <[js "host" := JStr (js "tgi")]>
             else fun o => o)
           (<[js "url" := JStr u]>
           (<[js "authorization" := JStr authorization]>
           (<[js "weight" := JNum weight]> ∅))))
  end.

(** [.parse(data)] called inside a transform: its ZodError escapes. *)
Definition parse_or_throw {A} (s : schema A) (data : jsval) : parsed A :=
  match s [] data with
  | Valid a => Valid a
  | Dirty i | Invalid i | Escapes i => Escapes i
  end.

(** [combinedEndpoint]: the union, then the variant's schema once more,
    chosen by [data.host]. The three constructors are the three hosts
    the union lets through; the final [throw] is not reachable. *)
Definition combinedEndpoint : schema Endpoint :=
  fun p data =>
    match endpoint p data with
    | Valid e =>
        match e with
        | TGI _ _ _ _ => parse_or_throw tgiEndpoint (endpoint_data e)
        | SageMaker _ _ _ _ _ =>
            parse_or_throw sagemakerEndpoint (endpoint_data e)
        | OpenAICompatible _ _ _ _ =>
            parse_or_throw openAICompatibleEndpoint (endpoint_data e)
        end
    | r => r
    end.

(** *** Models *)

Record PromptExample : Type := mkPromptExample {
  title : jstring;
  prompt : jstring
}.

Record ParametersConfig : Type := mkParametersConfig {
  temperature : Q;
  truncate : Q;
  max_new_tokens : Q;
  stop : option (list jstring);
  top_p : option Q;
  top_k : option Q;
  repetition_penalty : option Q;
  (** [.passthrough()]: what is kept of the keys the shape does not
      name *)
  unknown_keys : gmap jstring jsval
}.

Record ModelConfig : Type := mkModelConfig {
  id : option jstring;
  name : jstring;
  displayName : option jstring;
  description : option jstring;
  websiteUrl : option jstring;
  modelUrl : option jstring;
  datasetName : option jstring;
  datasetUrl : option jstring;
  userMessageToken : jstring;
  userMessageEndToken : jstring;
  assistantMessageToken : jstring;
  assistantMessageEndToken : jstring;
  messageEndToken : jstring;
  preprompt : jstring;
  prepromptUrl : option jstring;
  chatPromptTemplate : jstring;
  promptExamples : option (list PromptExample);
  endpoints : option (list Endpoint);
  parameters : option ParametersConfig
}.

Definition promptExample : schema PromptExample :=
  z_object (fun o p =>
    Valid mkPromptExample
    <*> field o p "title" (z_string [min1])
    <*> field o p "prompt" (z_string [min1])).

(** [.passthrough()]: the keys of the data that the shape does not
    name go to the parsed object with their values. When zod builds
    that object it copies neither a key [__proto__] nor, for a key
    outside the shape, a value [undefined]. *)
Definition is_undefined (v : jsval) : bool :=
  match v with JUndef => true | _ => false end.

Definition passthrough (shape_keys : list string)
    (o : gmap jstring jsval) : gmap jstring jsval :=
  filter (fun kv => is_undefined kv.2 = false)
    (delete (js "__proto__")
       (foldr (fun k => delete (js k)) o shape_keys)).

Definition parameters_keys : list string :=
  ["temperature"; "truncate"; "max_new_tokens"; "stop"; "top_p";
   "top_k"; "repetition_penalty"]%string.

Definition parametersConfig : schema ParametersConfig :=
  z_object (fun o p =>
    Valid mkParametersConfig
    <*> field o p "temperature" (z_number [nmin 0; nmax 1])
    <*> field o p "truncate" (z_number [int; positive])
    <*> field o p "max_new_tokens" (z_number [int; positive])
    <*> field o p "stop" (z_optional (z_array (z_string [])))
    <*> field o p "top_p" (z_optional (z_number [positive]))
    <*> field o p "top_k" (z_optional (z_number [positive]))
    <*> field o p "repetition_penalty"
          (z_optional (z_number [nmin (-2); nmax 2]))
    <*> Valid (passthrough parameters_keys o)).

Definition default_chatPromptTemplate : jstring :=
  js "{{preprompt}}" ++
  js "{{#each messages}}" ++
  js "{{#ifUser}}{{@root.userMessageToken}}{{content}}{{@root.userMessageEndToken}}{{/ifUser}}" ++
  js "{{#ifAssistant}}{{@root.assistantMessageToken}}{{content}}{{@root.assistantMessageEndToken}}{{/ifAssistant}}" ++
  js "{{/each}}" ++
  js "{{assistantMessageToken}}".

Definition modelConfig : schema ModelConfig :=
  z_object (fun o p =>
    Valid mkModelConfig
    <*> field o p "id" (z_optional (z_string []))
    <*> field o p "name" (z_string [min1])
    <*> field o p "displayName" (z_optional (z_string [min1]))
    <*> field o p "description" (z_optional (z_string [min1]))
    <*> field o p "websiteUrl" (z_optional (z_string [url]))
    <*> field o p "modelUrl" (z_optional (z_string [url]))
    <*> field o p "datasetName" (z_optional (z_string [min1]))
    <*> field o p "datasetUrl" (z_optional (z_string [url]))
    <*> field o p "userMessageToken" (z_default (JStr []) (z_string []))
    <*> field o p "userMessageEndToken"
          (z_default (JStr []) (z_string []))
    <*> field o p "assistantMessageToken"
          (z_default (JStr []) (z_string []))
    <*> field o p "assistantMessageEndToken"
          (z_default (JStr []) (z_string []))
    <*> field o p "messageEndToken" (z_default (JStr []) (z_string []))
    <*> field o p "preprompt" (z_default (JStr []) (z_string []))
    <*> field o p "prepromptUrl" (z_optional (z_string [url]))
    <*> field o p "chatPromptTemplate"
          (z_default (JStr default_chatPromptTemplate) (z_string []))
    <*> field o p "promptExamples" (z_optional (z_array promptExample))
    <*> field o p "endpoints" (z_optional (z_array combinedEndpoint))
    <*> field o p "parameters" (z_optional parametersConfig)).

(** [z.array(modelConfig).parse(JSON.parse(MODELS))] *)
Definition modelsRaw (MODELS : jsval)
  : list ModelConfig + list ZodIssue :=
  parse (z_array modelConfig) MODELS.
End Schemas.

(** An issue lies at or below the key [k] of the object parsed at [p]. *)
Definition under_key (p : list path_item) (k : string) (i : ZodIssue)
  : Prop :=
  (p ++ [Key (js k)]) `prefix_of` path i.

(** All issues lie at or below the place that was parsed. *)
Definition located {A} (p : list path_item) (r : parsed A) : Prop :=
  Forall (fun i => p `prefix_of` path i) (issues_of r).

(** A schema reports its issues at or below the path it is given. *)
Definition well_located {A} (s : schema A) : Prop :=
  forall p data, located p (s p data).

(** A property of the value, when parsing gives one. *)
Definition when_valid {A} (P : A -> Prop) (r : parsed A) : Prop :=
  match r with
  | Valid a => P a
  | _ => True
  end.
End Zod.

(** ** A small environment to run the definitions in *)

Module Examples.
Import Generation.

(** Bytes below 128 decode to the code unit of the same number. *)
Definition ascii_decode (b : list Byte.byte) : jstring :=
  map Byte.to_N b.

(** [JSON.parse] on the one text used below. *)
Definition parse_empty_array (t : jstring) : option jsval :=
  if bool_decide (t = js "[]") then Some (JArr []) else None.

(** A backend that answers every request with [reply]. *)
Definition example_env (reply : outcome Response) : Env :=
  mkEnv (js "</s>") unit tt (fun _ b => (tt, ascii_decode b))
    ascii_decode parse_empty_array (fun _ _ => reply)
    (fun _ => Thrown (Rejection (js "not used"))).

Definition example_model : BackendModel :=
  mkBackendModel (Some (js "m")) (js "m")
    {[ js "temperature" := JNum (1 # 2);
       js "stop" := JArr [JStr (js "STOP")] ]}.

Definition example_tgi : Endpoint :=
  TGI false (js "http://tgi/") (js "Bearer t") 1.

(** The bytes of the text [[]]. *)
Definition empty_array_bytes : list Byte.byte :=
  [Byte.x5b; Byte.x5d].

Definition example_sagemaker : Endpoint :=
  SageMaker (js "https://runtime.sagemaker/") (js "AK") (js "SK") None 1.

(** An answer of the given status whose body is the text [oops]. *)
Definition oops (status : Z) : Response :=
  mkResponse status
    (Some (mkBody [Bytes [Byte.x6f; Byte.x6f; Byte.x70; Byte.x73]] None)).

(** The inverse of [ascii_decode] on code units below 256. *)
Definition ascii_encode (t : jstring) : list Byte.byte :=
  omap Byte.of_N t.

(** The JSON text of an object, not an array, whose property [0] carries
    a [generated_text]: the code unit 34 is the double quote. *)
Definition quoted (t : string) : jstring := [34%N] ++ js t ++ [34%N].
Definition object_body_text : jstring :=
  js "{" ++ quoted "0" ++ js ":{" ++ quoted "generated_text" ++ js ":" ++
  quoted "hi" ++ js "}}".
Definition object_body : jsval :=
  JObj {[ js "0" := JObj {[ js "generated_text" := JStr (js "hi") ]} ]}.

(** [JSON.parse] on the two texts used here. *)
Definition parse_examples (t : jstring) : option jsval :=
  if bool_decide (t = object_body_text) then Some object_body
  else parse_empty_array t.

(** A backend whose answer to a request depends on how many times the
    request was sent before. *)
Definition example_network_env (net : nat -> outcome Response) : Env :=
  mkEnv (js "</s>") unit tt (fun _ b => (tt, ascii_decode b))
    ascii_decode parse_examples (fun _ => net)
    (fun _ => Thrown (Rejection (js "not used"))).

(** Two answers 503, then 404. *)
Definition busy_then_gone (i : nat) : outcome Response :=
  Returned (oops (if (i <? 2)%nat then 503 else 404)).
End Examples.

(** ** Further observations on the adapter, the stream and the request *)

Module Observations.
Import StreamAdapter OpenAIStream Generation.

(** [n] successive [next()] requests on the iterator, with what each one
    gave. *)
Fixpoint pull {T E : Type} (rd : reader T E) (g : generator) (s : stream)
    (n : nat) : list (response T E) * generator * stream :=
  match n with
  | O => ([], g, s)
  | S n' =>
      let '(g1, s1, r) := resume rd g s Next in
      let '(rs, g2, s2) := pull rd g1 s1 n' in
      (r :: rs, g2, s2)
  end.

(** [chunk.choices[0].text], when there is a first choice. *)
Definition delta_of (c : Chunk) : option jstring :=
  text <$> head (choices c).

(** The JSON body of a [fetch] or [aws.fetch] call. *)
Definition call_body (c : upstream_call) : option (gmap jstring jsval) :=
  match c with
  | AwsFetch _ _ _ _ body => Some body
  | Fetch _ _ body => Some body
  | CompletionsCreate _ _ _ _ _ _ _ => None
  end.

(** An OpenAI-compatible backend that streams [completion]. *)
Definition example_openai_env (completion : Completion) : Env :=
  mkEnv (js "</s>") unit tt (fun _ b => (tt, Examples.ascii_decode b))
    Examples.ascii_decode Examples.parse_empty_array
    (fun _ _ => Thrown (Rejection (js "not used")))
    (fun _ => Returned completion).

Definition example_openai : Endpoint :=
  OpenAICompatible (js "https://api.openai.com/v1") (Some (js "sk-key"))
    completions 1.
End Observations.

(** ** Configuration: what [models.ts] exports *)

Module Models.
Import Zod.

(** A parsed endpoint's [weight], and what the schemas demand of it. *)
Definition endpoint_weight (e : Endpoint) : Q :=
  match e with
  | OpenAICompatible _ _ _ w => w
  | SageMaker _ _ _ _ w => w
  | TGI _ _ _ w => w
  end.

(** The address a parsed endpoint is reached at. *)
Definition endpoint_url (e : Endpoint) : jstring :=
  match e with
  | OpenAICompatible baseURL _ _ _ => baseURL
  | SageMaker u _ _ _ _ => u
  | TGI _ u _ _ => u
  end.

(** The secrets a parsed endpoint must carry: none of them is empty. *)
Definition endpoint_secrets (e : Endpoint) : list jstring :=
  match e with
  | OpenAICompatible _ _ _ _ => []
  | SageMaker _ accessKey secretKey _ _ => [accessKey; secretKey]
  | TGI _ _ authorization _ => [authorization]
  end.

(** A schema never lets a ZodError escape. *)
Definition never_escapes {A} (s : schema A) : Prop :=
  forall p data i, s p data <> Escapes i.

(** The object a parsed [parameters] is: the seven keys of the shape, those
    of them that are optional only when they were given, and the keys that
    [.passthrough()] kept. *)
Definition opt_num (key : string) (v : option Q)
    (o : gmap jstring jsval) : gmap jstring jsval :=
  match v with
  | Some q => <[js key := JNum q]> o
  | None => o
  end.

Definition parameters_data (c : ParametersConfig) : gmap jstring jsval :=
  <[js "temperature" := JNum (temperature c)]>
  (<[js "truncate" := JNum (truncate c)]>
  (<[js "max_new_tokens" := JNum (max_new_tokens c)]>
  (match stop c with
   | Some l => <[js "stop" := JArr (map JStr l)]>
   | None => fun o => o
   end
  (opt_num "top_p" (top_p c)
  (opt_num "top_k" (top_k c)
  (opt_num "repetition_penalty" (repetition_penalty c)
  (unknown_keys c))))))).

(** A stand-in for the URL test, to run examples: the text starts with
    [http]. *)
Definition starts_with_http (s : jstring) : bool := startsWith s (js "http").

(** Why loading the configuration fails. *)
Inductive load_failure : Type :=
| BadJSON                            (* JSON.parse throws *)
| BadConfig (issues : list ZodIssue) (* .parse throws a ZodError *)
| PrepromptUnavailable.              (* fetching [prepromptUrl] rejects *)

Inductive loaded (A : Type) : Type :=
| Loaded (a : A)
| Failed (why : load_failure).
Arguments Loaded {A} a.
Arguments Failed {A} why.

(** [a || b] on strings: the empty string is falsy. *)
Definition or_else (a b : jstring) : jstring :=
  match a with
  | [] => b
  | _ => a
  end.

(** [a || b] when [a] may also be [undefined]. *)
Definition opt_or_else (a : option jstring) (b : jstring) : jstring :=
  match a with
  | Some (c :: r) => c :: r
  | _ => b
  end.

Section Exports.
Variable is_url : jstring -> bool.
Variables HF_ACCESS_TOKEN OPENAI_API_KEY : jstring.
(** [$env/static/private] *)
Variables MODELS OLD_MODELS TASK_MODEL : jstring.
(** [JSON.parse]; [None] is a SyntaxError *)
Variable JSON_parse : jstring -> option jsval.
(** [fetch(url).then((r) => r.text())]; [None] is a rejection *)
Variable fetch_text : jstring -> option jstring.
(** [compileTemplate] of [$lib/utils/template], not among the sources:
    what it returns is kept abstract. *)
Variable Render : Type.
Variable compileTemplate : jstring -> ModelConfig -> Render.

(** An element of [models]: the parsed model with the keys that
    [processModel] overwrites or adds. *)
Record ProcessedModel : Type := mkProcessedModel {
  config : ModelConfig;                 (* ...m *)
  pm_userMessageEndToken : jstring;
  pm_assistantMessageEndToken : jstring;
  chatPromptRender : Render;
  pm_id : jstring;
  pm_displayName : jstring;
  pm_preprompt : jstring;
  pm_parameters : gmap jstring jsval
}.

(** [processModel] *)
Definition processModel (m : ModelConfig) : loaded ProcessedModel :=
  let render := compileTemplate (chatPromptTemplate m) m in
  let parameters :=
    <[js "stop_sequences" :=
        match parameters m with
        | Some c =>
            match stop c with
            | Some l => JArr (map JStr l)
            | None => JUndef
            end
        | None => JUndef
        end]>
      (match parameters m with
       | Some c => parameters_data c
       | None => ∅
       end) in
  let finish preprompt :=
    Loaded (mkProcessedModel m
              (or_else (userMessageEndToken m) (messageEndToken m))
              (or_else (assistantMessageEndToken m) (messageEndToken m))
              render
              (opt_or_else (id m) (name m))
              (opt_or_else (displayName m) (name m))
              preprompt
              parameters) in
  match prepromptUrl m with
  | Some (c :: r) =>
      match fetch_text (c :: r) with
      | Some text => finish text
      | None => Failed PrepromptUnavailable
      end
  | _ => finish (preprompt m)
  end.

(** [Promise.all(list.map(processModel))]: every element, in order, or
    a rejection. *)
Fixpoint process_all (ms : list ModelConfig)
  : loaded (list ProcessedModel) :=
  match ms with
  | [] => Loaded []
  | m :: rest =>
      match processModel m, process_all rest with
      | Loaded pm, Loaded pms => Loaded (pm :: pms)
      | _, _ => Failed PrepromptUnavailable
      end
  end.

(** [models] *)
Definition models : loaded (list ProcessedModel) :=
  match JSON_parse MODELS with
  | None => Failed BadJSON
  | Some data =>
      match modelsRaw is_url HF_ACCESS_TOKEN OPENAI_API_KEY data with
      | inr issues => Failed (BadConfig issues)
      | inl raw => process_all raw
      end
  end.

(** What the schema of the deprecated models gives, and an element of
    [oldModels]. *)
Record OldModelConfig : Type := mkOldModelConfig {
  old_id : option jstring;
  old_name : jstring;
  old_displayName : option jstring
}.

Record OldModel : Type := mkOldModel {
  om_config : OldModelConfig;            (* ...m *)
  om_id : jstring;
  om_displayName : jstring
}.

Definition oldModelConfig : schema OldModelConfig :=
  z_object (fun o p =>
    Valid mkOldModelConfig
    <*> field o p "id" (z_optional (z_string is_url []))
    <*> field o p "name" (z_string is_url [min1])
    <*> field o p "displayName" (z_optional (z_string is_url [min1]))).

(** [(m) => ({ ...m, id: m.id || m.name,
               displayName: m.displayName || m.name })] *)
Definition old_defaults (m : OldModelConfig) : OldModel :=
  mkOldModel m (opt_or_else (old_id m) (old_name m))
    (opt_or_else (old_displayName m) (old_name m)).

(** [oldModels] *)
Definition oldModels : loaded (list OldModel) :=
  match OLD_MODELS with
  | [] => Loaded []
  | _ =>
      match JSON_parse OLD_MODELS with
      | None => Failed BadJSON
      | Some data =>
          match parse (z_array oldModelConfig) data with
          | inl l => Loaded (map old_defaults l)
          | inr issues => Failed (BadConfig issues)
          end
      end
  end.

(** [defaultModel = models[0]]: [undefined] when [models] is empty. *)
Definition defaultModel (ms : list ProcessedModel)
  : option ProcessedModel :=
  head ms.

(** What [validateModel(_models).parse(data)] gives. *)
Inductive enum_result : Type :=
| EnumValue (s : jstring)
| EnumInvalidType            (* not a string *)
| EnumInvalidValue.          (* a string that is not one of the ids *)

Definition z_enum (values : list jstring) (data : jsval) : enum_result :=
  match data with
  | JStr s =>
      if bool_decide (s ∈ values) then EnumValue s else EnumInvalidValue
  | _ => EnumInvalidType
  end.

(** [validateModel]: reading [_models[0].id] of an empty list throws. *)
Definition validateModel (ms : list ProcessedModel)
  : outcome (jsval -> enum_result) :=
  match ms with
  | [] => Thrown TypeError
  | first :: rest => Returned (z_enum (pm_id first :: map pm_id rest))
  end.

(** [models.find((m) => m.name === TASK_MODEL)] *)
Definition find_by_name (ms : list ProcessedModel) (wanted : jstring)
  : option ProcessedModel :=
  List.find (fun m => bool_decide (name (config m) = wanted)) ms.

(** [smallModel], given the loaded [models]. *)
Definition smallModel (ms : list ProcessedModel)
  : loaded (option ProcessedModel) :=
  match TASK_MODEL with
  | [] => Loaded (defaultModel ms)
  | _ =>
      match find_by_name ms TASK_MODEL with
      | Some m => Loaded (Some m)
      | None =>
          match JSON_parse TASK_MODEL with
          | None => Failed BadJSON
          | Some data =>
              match parse (modelConfig is_url HF_ACCESS_TOKEN
                             OPENAI_API_KEY) data with
              | inr issues => Failed (BadConfig issues)
              | inl m =>
                  match processModel m with
                  | Loaded pm => Loaded (Some pm)
                  | Failed why => Failed why
                  end
              end
          end
      end
  end.

(** The model as [generateFromDefaultEndpoint] reads it. *)
Definition as_backend (pm : ProcessedModel) : BackendModel :=
  mkBackendModel (Some (pm_id pm)) (name (config pm)) (pm_parameters pm).
End Exports.

Arguments config {Render} _.
Arguments pm_userMessageEndToken {Render} _.
Arguments pm_assistantMessageEndToken {Render} _.
Arguments chatPromptRender {Render} _.
Arguments pm_id {Render} _.
Arguments pm_displayName {Render} _.
Arguments pm_preprompt {Render} _.
Arguments pm_parameters {Render} _.
Arguments defaultModel {Render} ms.
Arguments validateModel {Render} ms.
Arguments find_by_name {Render} ms wanted.
Arguments as_backend {Render} pm.
End Models.

(** ** Configuration with a default-model flag (the other revision of
       [models.ts] among the sources) *)

Module FlaggedModels.
Import Zod Models.

(** [z.boolean()] *)
Definition z_boolean : schema bool :=
  fun p data =>
    match data with
    | JBool b => Valid b
    | _ => Invalid [mkIssue invalid_type p]
    end.

(** In this revision [top_p], [top_k] and [repetition_penalty] are
    required and positive. *)
Record FlaggedParameters : Type := mkFlaggedParameters {
  fp_temperature : Q;
  fp_truncate : Q;
  fp_max_new_tokens : Q;
  fp_stop : option (list jstring);
  fp_top_p : Q;
  fp_top_k : Q;
  fp_repetition_penalty : Q;
  fp_unknown_keys : gmap jstring jsval
}.

Record FlaggedConfig : Type := mkFlaggedConfig {
  fc_id : option jstring;
  fc_name : jstring;
  fc_defaultModel : bool;
  fc_displayName : option jstring;
  fc_description : option jstring;
  fc_websiteUrl : option jstring;
  fc_modelUrl : option jstring;
  fc_datasetName : option jstring;
  fc_datasetUrl : option jstring;
  fc_userMessageToken : jstring;
  fc_userMessageEndToken : jstring;
  fc_assistantMessageToken : jstring;
  fc_assistantMessageEndToken : jstring;
  fc_messageEndToken : jstring;
  fc_preprompt : jstring;
  fc_prepromptUrl : option jstring;
  fc_chatPromptTemplate : jstring;
  fc_webSearchQueryPromptTemplate : jstring;
  fc_promptExamples : option (list PromptExample);
  fc_endpoints : option (list Endpoint);
  fc_parameters : option FlaggedParameters
}.

Definition default_webSearchQueryPromptTemplate : jstring :=
  js "{{userMessageToken}}" ++
  (js "My question is: " ++ [34%N] ++ js "{{message.content}}" ++ [34%N]
   ++ js ". ") ++
  js "Based on the conversation history (my previous questions are: {{previousMessages}}), give me an appropriate query to answer my question for google search. You should not say more than query. You should not say any words except the query. For the context, today is {{currentDate}}" ++
  js "{{userMessageEndToken}}" ++
  js "{{assistantMessageToken}}".

Section Exports.
Variable is_url : jstring -> bool.
Variables HF_ACCESS_TOKEN OPENAI_API_KEY : jstring.
Variable MODELS : jstring.
Variable JSON_parse : jstring -> option jsval.
Variable fetch_text : jstring -> option jstring.
Variable Render : Type.
Variable compileTemplate : jstring -> FlaggedConfig -> Render.

Definition flaggedParameters : schema FlaggedParameters :=
  z_object (fun o p =>
    Valid mkFlaggedParameters
    <*> field o p "temperature" (z_number [nmin 0; nmax 1])
    <*> field o p "truncate" (z_number [int; positive])
    <*> field o p "max_new_tokens" (z_number [int; positive])
    <*> field o p "stop" (z_optional (z_array (z_string is_url [])))
    <*> field o p "top_p" (z_number [positive])
    <*> field o p "top_k" (z_number [positive])
    <*> field o p "repetition_penalty" (z_number [positive])
    <*> Valid (passthrough parameters_keys o)).

(** The element schema of [modelsRaw]. *)
Definition flaggedConfig : schema FlaggedConfig :=
  z_object (fun o p =>
    Valid mkFlaggedConfig
    <*> field o p "id" (z_optional (z_string is_url []))
    <*> field o p "name" (z_string is_url [min1])
    <*> field o p "defaultModel" (z_default (JBool false) z_boolean)
    <*> field o p "displayName" (z_optional (z_string is_url [min1]))
    <*> field o p "description" (z_optional (z_string is_url [min1]))
    <*> field o p "websiteUrl" (z_optional (z_string is_url [url]))
    <*> field o p "modelUrl" (z_optional (z_string is_url [url]))
    <*> field o p "datasetName" (z_optional (z_string is_url [min1]))
    <*> field o p "datasetUrl" (z_optional (z_string is_url [url]))
    <*> field o p "userMessageToken"
          (z_default (JStr []) (z_string is_url []))
    <*> field o p "userMessageEndToken"
          (z_default (JStr []) (z_string is_url []))
    <*> field o p "assistantMessageToken"
          (z_default (JStr []) (z_string is_url []))
    <*> field o p "assistantMessageEndToken"
          (z_default (JStr []) (z_string is_url []))
    <*> field o p "messageEndToken"
          (z_default (JStr []) (z_string is_url []))
    <*> field o p "preprompt" (z_default (JStr []) (z_string is_url []))
    <*> field o p "prepromptUrl" (z_optional (z_string is_url [url]))
    <*> field o p "chatPromptTemplate"
          (z_default (JStr default_chatPromptTemplate)
             (z_string is_url []))
    <*> field o p "webSearchQueryPromptTemplate"
          (z_default (JStr default_webSearchQueryPromptTemplate)
             (z_string is_url []))
    <*> field o p "promptExamples"
          (z_optional (z_array (promptExample is_url)))
    <*> field o p "endpoints"
          (z_optional
             (z_array
                (combinedEndpoint is_url HF_ACCESS_TOKEN OPENAI_API_KEY)))
    <*> field o p "parameters" (z_optional flaggedParameters)).

(** [modelsRaw] *)
Definition flaggedModelsRaw (data : jsval)
  : list FlaggedConfig + list ZodIssue :=
  parse (z_array flaggedConfig) data.

(** An element of [models]. *)
Record FlaggedModel : Type := mkFlaggedModel {
  fm_config : FlaggedConfig;             (* ...m *)
  fm_userMessageEndToken : jstring;
  fm_assistantMessageEndToken : jstring;
  fm_chatPromptRender : Render;
  fm_webSearchQueryPromptRender : Render;
  fm_id : jstring;
  fm_displayName : jstring;
  fm_preprompt : jstring
}.

(** The function mapped over [modelsRaw]. *)
Definition process (m : FlaggedConfig) : loaded FlaggedModel :=
  let finish preprompt :=
    Loaded (mkFlaggedModel m
              (or_else (fc_userMessageEndToken m) (fc_messageEndToken m))
              (or_else (fc_assistantMessageEndToken m)
                 (fc_messageEndToken m))
              (compileTemplate (fc_chatPromptTemplate m) m)
              (compileTemplate (fc_webSearchQueryPromptTemplate m) m)
              (opt_or_else (fc_id m) (fc_name m))
              (opt_or_else (fc_displayName m) (fc_name m))
              preprompt) in
  match fc_prepromptUrl m with
  | Some (c :: r) =>
      match fetch_text (c :: r) with
      | Some text => finish text
      | None => Failed PrepromptUnavailable
      end
  | _ => finish (fc_preprompt m)
  end.

Fixpoint process_each (ms : list FlaggedConfig)
  : loaded (list FlaggedModel) :=
  match ms with
  | [] => Loaded []
  | m :: rest =>
      match process m, process_each rest with
      | Loaded fm, Loaded fms => Loaded (fm :: fms)
      | _, _ => Failed PrepromptUnavailable
      end
  end.

(** [models] *)
Definition flaggedModels : loaded (list FlaggedModel) :=
  match JSON_parse MODELS with
  | None => Failed BadJSON
  | Some data =>
      match flaggedModelsRaw data with
      | inr issues => Failed (BadConfig issues)
      | inl raw => process_each raw
      end
  end.

Definition no_default_model_message : jstring :=
  js "Specify at least one default model in MODELS env variable with defaultModel: true".

(** [getDefaultModel] *)
Definition getDefaultModel (ms : list FlaggedModel)
  : outcome FlaggedModel :=
  match List.find (fun model => fc_defaultModel (fm_config model)) ms with
  | Some model => Returned model
  | None => Thrown (Error no_default_model_message)
  end.
End Exports.

Arguments fm_config {Render} _.
Arguments fm_id {Render} _.
Arguments fm_displayName {Render} _.
Arguments fm_preprompt {Render} _.
Arguments getDefaultModel {Render} ms.
End FlaggedModels.

(** ** Small configurations to run the definitions on *)

Module ConfigExamples.
Import Zod Models FlaggedModels.

(** [{"url": "http://tgi/"}] *)
Definition tgi_object : gmap jstring jsval :=
  {[ js "url" := JStr (js "http://tgi/") ]}.

(** [{"host": "azure", "url": "http://tgi/"}] *)
Definition azure_object : gmap jstring jsval :=
  <[js "host" := JStr (js "azure")]> tgi_object.

(** [{"temperature": 0.5, "truncate": 1000, "max_new_tokens": 100,
      "stop": ["###"], "do_sample": true}] *)
Definition parameters_object : gmap jstring jsval :=
  <[js "temperature" := JNum (1 # 2)]>
  (<[js "truncate" := JNum 1000]>
  (<[js "max_new_tokens" := JNum 100]>
  (<[js "stop" := JArr [JStr (js "###")]]>
  (<[js "do_sample" := JBool true]> ∅)))).

(** [{"name": "m", "parameters": {...}}] *)
Definition model_object : gmap jstring jsval :=
  <[js "name" := JStr (js "m")]>
  (<[js "parameters" := JObj parameters_object]> ∅).

(** [{"name": "m", "prepromptUrl": "http://p/"}] *)
Definition model_with_preprompt_url : gmap jstring jsval :=
  <[js "name" := JStr (js "m")]>
  (<[js "prepromptUrl" := JStr (js "http://p/")]> ∅).

(** A [JSON.parse] that reads every text as [data]. *)
Definition parse_as (data : jsval) (text : jstring) : option jsval :=
  Some data.

(** A network on which no URL answers, and one on which every URL serves
    the text [hi]. *)
Definition unreachable (u : jstring) : option jstring := None.
Definition serves_hi (u : jstring) : option jstring := Some (js "hi").

(** A template compiler that keeps nothing. *)
Definition no_render (template : jstring) (m : ModelConfig) : unit := tt.
Definition no_flagged_render (template : jstring) (m : FlaggedConfig)
  : unit := tt.

(** What [parameters_object] and [model_object] parse to, and the model
    processed. *)
Definition example_parameters : ParametersConfig :=
  mkParametersConfig (1 # 2) 1000 100 (Some [js "###"]) None None None
    {[ js "do_sample" := JBool true ]}.

Definition example_parsed_model : ModelConfig :=
  mkModelConfig None (js "m") None None None None None None
    [] [] [] [] [] [] None default_chatPromptTemplate None None
    (Some example_parameters).

Definition example_processed_model : ProcessedModel unit :=
  mkProcessedModel unit example_parsed_model [] [] tt (js "m") (js "m") []
    (<[js "stop_sequences" := JArr [JStr (js "###")]]>
       (parameters_data example_parameters)).

(** What [model_with_preprompt_url] gives in the revision with the flag,
    on a network that serves [hi]. *)
Definition example_flagged_config : FlaggedConfig :=
  mkFlaggedConfig None (js "m") false None None None None None None
    [] [] [] [] [] [] (Some (js "http://p/")) default_chatPromptTemplate
    default_webSearchQueryPromptTemplate None None None.

Definition example_flagged_model : FlaggedModel unit :=
  mkFlaggedModel unit example_flagged_config [] [] tt tt (js "m") (js "m")
    (js "hi").
End ConfigExamples.
(* ===================================================================== *)
(** * Part II: properties                                                 *)
(* ===================================================================== *)

(** ** JavaScript strings *)

Lemma startsWith_prefix (s p : jstring) :
  startsWith s p = true <-> p `prefix_of` s.
Proof.
  revert s; induction p as [|b p IH]; intros s; simpl.
  - split; [intros _; apply prefix_nil | reflexivity].
  - destruct s as [|a s].
    + split; [discriminate | intros H; by apply prefix_nil_not in H].
    + rewrite andb_true_iff, N.eqb_eq, IH. split.
      * intros [-> H]. by apply prefix_cons.
      * intros H. split.
        -- symmetry. by apply prefix_cons_inv_1 in H.
        -- by apply prefix_cons_inv_2 in H.
Qed.

Lemma startsWith_app (p k : jstring) : startsWith (p ++ k) p = true.
Proof. apply startsWith_prefix. by exists k. Qed.

Lemma endsWith_suffix (s p : jstring) :
  endsWith s p = true <-> p `suffix_of` s.
Proof.
  unfold endsWith. rewrite andb_true_iff, Nat.leb_le, startsWith_prefix.
  split.
  - intros [Hlen [k Hk]].
    assert (Hk0 : k = []).
    { apply (f_equal length) in Hk.
      rewrite length_drop, length_app in Hk.
      destruct k; [done | simpl in Hk; lia]. }
    subst k. rewrite app_nil_r in Hk.
    exists (take (length s - length p) s).
    rewrite <- (take_drop (length s - length p) s) at 1. by rewrite Hk.
  - intros [k ->]. rewrite length_app. split; [lia |].
    replace (length k + length p - length p)%nat with (length k) by lia.
    rewrite drop_app_length. reflexivity.
Qed.

Lemma slice_0 (s : jstring) (stop : Z) :
  slice s 0 stop = take (Z.to_nat (relativeIndex (jlength s) stop)) s.
Proof.
  unfold slice, jlength, relativeIndex. simpl.
  replace (Z.min 0 (Z.of_nat (length s))) with 0 by lia.
  simpl. by rewrite Z.sub_0_r.
Qed.

Lemma slice_0_upto (s : jstring) (n : nat) :
  (n <= length s)%nat -> slice s 0 (jlength s - Z.of_nat n) = take (length s - n) s.
Proof.
  intros Hn. rewrite slice_0. unfold relativeIndex, jlength.
  destruct (Z.ltb_spec (Z.of_nat (length s) - Z.of_nat n) 0); [lia |].
  f_equal. lia.
Qed.

Lemma slice_0_neg (s : jstring) (n : nat) :
  (0 < n)%nat -> slice s 0 (- Z.of_nat n) = take (length s - n) s.
Proof.
  intros Hn. rewrite slice_0. unfold relativeIndex, jlength.
  destruct (Z.ltb_spec (- Z.of_nat n) 0); [| lia].
  f_equal. lia.
Qed.

Lemma slice_0_neg0 (s : jstring) : slice s 0 (- 0) = [].
Proof.
  rewrite slice_0. unfold relativeIndex, jlength.
  change (- 0 <? 0) with false. cbv iota.
  replace (Z.min (- 0) (Z.of_nat (length s))) with 0 by lia.
  reflexivity.
Qed.

Lemma slice_0_prefix (s : jstring) (stop : Z) : slice s 0 stop `prefix_of` s.
Proof. rewrite slice_0. apply prefix_take. Qed.

Lemma sliceFrom_drop (s : jstring) (n : nat) :
  sliceFrom s (Z.of_nat n) = drop n s.
Proof.
  unfold sliceFrom, slice, relativeIndex.
  destruct (Z.ltb_spec (Z.of_nat n) 0); [lia |].
  destruct (Z.ltb_spec (Z.of_nat (length s)) 0); [lia |].
  rewrite Z.min_id.
  destruct (Z.min_spec (Z.of_nat n) (Z.of_nat (length s))) as [[? ->]|[? ->]].
  - rewrite Nat2Z.id. apply take_ge. rewrite length_drop. lia.
  - rewrite Nat2Z.id, Z.sub_diag. simpl.
    rewrite take_0. symmetry. apply drop_ge. lia.
Qed.

Lemma trimEnd_prefix (s : jstring) : trimEnd s `prefix_of` s.
Proof.
  induction s as [|c r IH]; simpl; [done |].
  destruct (trimEnd r) as [|d r'] eqn:E.
  - destruct (isStrWhiteSpaceChar c); [apply prefix_nil |].
    apply prefix_cons, prefix_nil.
  - by apply prefix_cons.
Qed.

(** [trimEnd] read from the end: a trailing white-space code unit is dropped
    and trimming goes on; any other code unit stops it. *)
Lemma trimEnd_snoc (s : jstring) (c : N) :
  trimEnd (s ++ [c]) =
  if isStrWhiteSpaceChar c then trimEnd s else s ++ [c].
Proof.
  induction s as [|a s IH].
  - simpl. by destruct (isStrWhiteSpaceChar c).
  - change (trimEnd ((a :: s) ++ [c])) with
      (match trimEnd (s ++ [c]) with
       | [] => if isStrWhiteSpaceChar a then [] else [a]
       | r' => a :: r'
       end).
    rewrite IH. destruct (isStrWhiteSpaceChar c); [done |].
    by destruct s.
Qed.

Lemma trimEnd_idem (s : jstring) : trimEnd (trimEnd s) = trimEnd s.
Proof.
  induction s as [|c r IH]; simpl; [done |].
  destruct (trimEnd r) as [|d r'] eqn:E.
  - destruct (isStrWhiteSpaceChar c) eqn:W; simpl; [done |]. by rewrite W.
  - change (trimEnd (c :: d :: r')) with
      (match trimEnd (d :: r') with
       | [] => if isStrWhiteSpaceChar c then [] else [c]
       | r'' => c :: r''
       end).
    by rewrite IH.
Qed.

(** ** Post-processing *)

Lemma trimPrefix_drop (input prefix : jstring) :
  trimPrefix input prefix =
  if startsWith input prefix then drop (length prefix) input else input.
Proof. unfold trimPrefix, jlength. by rewrite sliceFrom_drop. Qed.

Lemma trimSuffix_take (input suffix : jstring) :
  trimSuffix input suffix =
  if endsWith input suffix
  then take (length input - length suffix) input else input.
Proof.
  unfold trimSuffix. destruct (endsWith input suffix) eqn:E; [| done].
  apply slice_0_upto. unfold endsWith in E.
  apply andb_true_iff in E as [E _]. by apply Nat.leb_le in E.
Qed.

Lemma trimSuffix_prefix (input suffix : jstring) :
  trimSuffix input suffix `prefix_of` input.
Proof.
  rewrite trimSuffix_take. destruct (endsWith _ _); [apply prefix_take | done].
Qed.

Lemma stop_step_prefix (g stop : jstring) : stop_step g stop `prefix_of` g.
Proof.
  unfold stop_step. destruct (endsWith g stop); [| done].
  etrans; [apply trimEnd_prefix | apply slice_0_prefix].
Qed.

Lemma stop_step_trimmed (g stop : jstring) :
  trimEnd g = g -> trimEnd (stop_step g stop) = stop_step g stop.
Proof.
  intros Hg. unfold stop_step. destruct (endsWith g stop); [| done].
  apply trimEnd_idem.
Qed.

Lemma stop_step_nonempty (g stop : jstring) :
  stop <> [] ->
  stop_step g stop =
  if endsWith g stop then trimEnd (take (length g - length stop) g) else g.
Proof.
  intros Hs. unfold stop_step, jlength. destruct (endsWith g stop); [| done].
  rewrite slice_0_neg; [done |]. destruct stop; [done | simpl; lia].
Qed.

Lemma stop_step_empty (g : jstring) : stop_step g [] = [].
Proof.
  unfold stop_step. replace (endsWith g []) with true.
  - change (- jlength []) with (- 0). by rewrite slice_0_neg0.
  - symmetry. apply endsWith_suffix. apply suffix_nil.
Qed.

Lemma fold_stop_step_prefix (stops : list jstring) (g : jstring) :
  fold_left stop_step stops g `prefix_of` g.
Proof.
  revert g; induction stops as [|st stops IH]; intros g; simpl; [done |].
  etrans; [apply IH | apply stop_step_prefix].
Qed.

Lemma fold_stop_step_trimmed (stops : list jstring) (g : jstring) :
  trimEnd g = g ->
  trimEnd (fold_left stop_step stops g) = fold_left stop_step stops g.
Proof.
  revert g; induction stops as [|st stops IH]; intros g Hg; simpl; [done |].
  by apply IH, stop_step_trimmed.
Qed.

Lemma fold_stop_step_fixed (stops : list jstring) (g : jstring) :
  Forall (fun st => endsWith g st = false) stops ->
  fold_left stop_step stops g = g.
Proof.
  induction 1 as [|st stops Hst _ IH]; simpl; [done |].
  unfold stop_step at 2. by rewrite Hst.
Qed.

(** Whatever the arguments, the result of [clean] is a prefix of the text
    left after the two prefix strips: no later step adds or moves code
    units. *)
Lemma clean_prefix (sep raw prompt : jstring) (stops : list jstring) :
  clean sep raw prompt stops
    `prefix_of` trimPrefix (trimPrefix raw START_OF_TEXT) prompt.
Proof.
  unfold clean.
  etrans; [apply fold_stop_step_prefix |].
  etrans; [apply trimEnd_prefix | apply trimSuffix_prefix].
Qed.

(** The result of [clean] never ends in white space. *)
Lemma clean_trimmed (sep raw prompt : jstring) (stops : list jstring) :
  trimEnd (clean sep raw prompt stops) = clean sep raw prompt stops.
Proof. unfold clean. apply fold_stop_step_trimmed, trimEnd_idem. Qed.

(** An empty prompt strips nothing, an empty separator strips nothing. *)
Lemma trimPrefix_nil (t : jstring) : trimPrefix t [] = t.
Proof. by rewrite trimPrefix_drop. Qed.

Lemma trimSuffix_nil (t : jstring) : trimSuffix t [] = t.
Proof.
  rewrite trimSuffix_take. destruct (endsWith t []); [| done].
  simpl. rewrite Nat.sub_0_r. apply firstn_all.
Qed.

Lemma trimPrefix_no_match (t p : jstring) :
  startsWith t p = false -> trimPrefix t p = t.
Proof. intros H. unfold trimPrefix. by rewrite H. Qed.

Lemma trimSuffix_no_match (t p : jstring) :
  endsWith t p = false -> trimSuffix t p = t.
Proof. intros H. unfold trimSuffix. by rewrite H. Qed.

(** On stop sequences that are all non-empty, the code's loop body and the
    specification's step 5 agree. *)
Lemma fold_stop_step_spec (stops : list jstring) (g : jstring) :
  Forall (fun st => st <> []) stops ->
  fold_left stop_step stops g = fold_left step5_one stops g.
Proof.
  intros H; revert g; induction H as [|st stops Hst _ IH]; intros g; simpl.
  - done.
  - rewrite IH. f_equal. unfold step5_one. by apply stop_step_nonempty.
Qed.

(** With non-empty stop sequences the code performs exactly the five steps
    of the specification, in the specification's order. *)
Lemma clean_refines_spec (sep raw prompt : jstring) (stops : list jstring) :
  Forall (fun st => st <> []) stops ->
  clean sep raw prompt stops = clean_spec sep raw prompt stops.
Proof.
  intros H. unfold clean, clean_spec, step5_stops, step4_trim,
    step3_strip_sep, step2_strip_prompt, step1_strip_bos.
  rewrite fold_stop_step_spec.
  - by rewrite trimSuffix_take, !trimPrefix_drop.
  - apply Forall_app. split; [done |]. by repeat constructor.
Qed.

(** The order of prompt stripping and stop trimming is observable. *)
Lemma clean_order_observable :
  clean_spec (js "</s>") (js "a STOP") (js "a STOP") [js "STOP"] = js "" /\
  clean_stops_first (js "</s>") (js "a STOP") (js "a STOP") [js "STOP"]
    = js "a".
Proof. split; vm_compute; reflexivity. Qed.

(** An empty stop sequence erases the text: [slice(0, -0)] is
    [slice(0, 0)]. *)
Lemma clean_empty_stop (sep raw prompt : jstring) (stops : list jstring) :
  In [] stops -> clean sep raw prompt stops = [].
Proof.
  intros Hin. unfold clean.
  apply in_split in Hin as (l1 & l2 & ->).
  rewrite <- app_assoc, fold_left_app. simpl. rewrite stop_step_empty.
  generalize (l2 ++ [END_OF_TEXT]). intros l.
  apply prefix_nil_inv, fold_stop_step_prefix.
Qed.

(** C1 (as found in the code): for prompt "Hello", stop sequence "STOP" and
    raw text "Hello continuation STOP", [clean] returns " continuation":
    the blank that followed the echoed prompt is kept, since only trailing
    white space is trimmed. This holds for every separator token that does
    not end the text " continuation STOP". *)
Theorem C1_clean_hello_keeps_leading_blank (sep : jstring) :
  endsWith (js " continuation STOP") sep = false ->
  clean sep (js "Hello continuation STOP") (js "Hello") [js "STOP"]
  = js " continuation".
Proof.
  intros Hsep. unfold clean.
  change (trimPrefix (trimPrefix (js "Hello continuation STOP")
            START_OF_TEXT) (js "Hello"))
    with (js " continuation STOP").
  rewrite (trimSuffix_no_match _ _ Hsep).
  vm_compute. reflexivity.
Qed.

Lemma C1_clean_hello_witness :
  endsWith (js " continuation STOP") (js "</s>") = false /\
  clean (js "</s>") (js "Hello continuation STOP") (js "Hello") [js "STOP"]
  = js " continuation".
Proof.
  split; [reflexivity |].
  apply (C1_clean_hello_keeps_leading_blank (js "</s>")). reflexivity.
Defined.

(** C1 (as stated) fails: no separator token makes [clean] return
    "continuation" on that input. *)
Lemma C1_clean_hello_counterexample :
  ~ (exists sep : jstring,
       clean sep (js "Hello continuation STOP") (js "Hello") [js "STOP"]
       = js "continuation").
Proof.
  intros [sep H].
  pose proof (clean_prefix sep (js "Hello continuation STOP") (js "Hello")
                [js "STOP"]) as [k Hk].
  rewrite H in Hk. vm_compute in Hk. discriminate Hk.
Qed.

(** C2 (as found in the code): re-applying [clean] to its own output is a
    no-op whenever that output no longer starts with the beginning-of-text
    marker or the (non-empty) prompt and no longer ends with the (non-empty)
    separator token, a stop sequence or the end-of-text marker. *)
Theorem C2_clean_idempotent_on_settled_output
    (sep x p : jstring) (s : list jstring) :
  startsWith (clean sep x p s) START_OF_TEXT = false ->
  (p = [] \/ startsWith (clean sep x p s) p = false) ->
  (sep = [] \/ endsWith (clean sep x p s) sep = false) ->
  Forall (fun st => endsWith (clean sep x p s) st = false)
         (s ++ [END_OF_TEXT]) ->
  clean sep (clean sep x p s) p s = clean sep x p s.
Proof.
  intros Hbos Hp Hsep Hstops.
  pose proof (clean_trimmed sep x p s) as Htrim.
  remember (clean sep x p s) as y eqn:Hy. clear Hy.
  unfold clean.
  rewrite (trimPrefix_no_match _ _ Hbos).
  assert (trimPrefix y p = y) as ->.
  { destruct Hp as [-> | Hp]; [apply trimPrefix_nil |].
    by apply trimPrefix_no_match. }
  assert (trimSuffix y sep = y) as ->.
  { destruct Hsep as [-> | Hsep]; [apply trimSuffix_nil |].
    by apply trimSuffix_no_match. }
  rewrite Htrim. by apply fold_stop_step_fixed.
Qed.

Lemma C2_clean_idempotent_witness :
  startsWith (js " continuation") START_OF_TEXT = false /\
  startsWith (js " continuation") (js "Hello") = false /\
  endsWith (js " continuation") (js "</s>") = false /\
  clean (js "</s>")
    (clean (js "</s>") (js "Hello continuation STOP") (js "Hello")
       [js "STOP"])
    (js "Hello") [js "STOP"]
  = clean (js "</s>") (js "Hello continuation STOP") (js "Hello")
      [js "STOP"].
Proof.
  split; [reflexivity |]. split; [reflexivity |]. split; [reflexivity |].
  apply (C2_clean_idempotent_on_settled_output
           (js "</s>") (js "Hello continuation STOP") (js "Hello")
           [js "STOP"]).
  - reflexivity.
  - right; reflexivity.
  - right; reflexivity.
  - repeat constructor.
Defined.

(** C2 (as stated) fails: the echoed prompt is stripped once per
    application, and so is each stop sequence. *)
Lemma C2_clean_idempotent_counterexample :
  clean (js "</s>") (clean (js "</s>") (js "a STOP STOP") (js "") [js "STOP"])
    (js "") [js "STOP"]
  <> clean (js "</s>") (js "a STOP STOP") (js "") [js "STOP"].
Proof. vm_compute. discriminate. Qed.

Example clean_twice_strips_prompt_twice :
  clean (js "</s>") (js "HelloHello world") (js "Hello") [] = js "Hello world"
  /\ clean (js "</s>") (js "Hello world") (js "Hello") [] = js " world".
Proof. split; vm_compute; reflexivity. Qed.

(** C8: the code performs the specification's steps in the specification's
    order as long as every stop sequence is non-empty
    ([clean_refines_spec]). On an empty stop sequence the loop body
    [slice(0, -stop.length)] is [slice(0, 0)] and erases the text, where
    removing an empty suffix leaves it unchanged: here the code returns the
    empty string and the steps of the specification give " world". *)
Theorem C8_clean_empty_stop_diverges :
  clean (js "</s>") (js "Hello world") (js "Hello") [js ""] = js "" /\
  clean_spec (js "</s>") (js "Hello world") (js "Hello") [js ""]
  = js " world".
Proof. split; vm_compute; reflexivity. Qed.

(** ** StreamAdapter *)

Module StreamAdapterProps.
Import StreamAdapter.
Section Props.
Context {T E : Type}.
Implicit Types (rd : reader T E) (s : stream) (g : generator).

Lemma loop_turn_cases rd s :
  locked s = true -> getReader_calls s = 1%nat ->
  releaseLock_calls s = 0%nat ->
  match loop_turn rd s with
  | (g', s', Yielded _) => iterating g' s' /\ g' = SuspendedYield
  | (g', s', _) => released_once g' s'
  end.
Proof.
  intros Hl Hg Hr. unfold loop_turn.
  destruct (rd (reads s)); simpl; unfold released_once; simpl; auto.
Qed.

Lemma resume_next_cases rd g s :
  iterating g s ->
  match resume rd g s Next with
  | (g', s', Yielded _) => iterating g' s' /\ g' = SuspendedYield
  | (g', s', _) => released_once g' s'
  end.
Proof.
  destruct g; simpl; [| | done].
  - intros (Hl & Hg & Hr). rewrite Hl.
    apply loop_turn_cases; simpl; congruence.
  - intros (Hl & Hg & Hr). by apply loop_turn_cases.
Qed.

Lemma resume_return_yield rd s :
  iterating SuspendedYield s ->
  match resume rd SuspendedYield s Return with
  | (g', s', _) => released_once g' s'
  end.
Proof.
  intros (Hl & Hg & Hr). simpl. unfold released_once. simpl.
  repeat split; congruence.
Qed.

(** Once completed, the generator runs no code of its body again. *)
Lemma run_completed rd s (rs : list (request E)) :
  run rd Completed s rs = (Completed, s).
Proof.
  induction rs as [|r rs IH]; simpl; [done |]. by destruct r.
Qed.

Lemma forAwait_from_cases rd (body : list (body_action E)) :
  forall g s, iterating g s ->
  match forAwait_from rd g s body with
  | (StillIterating, g', s') => iterating g' s'
  | (_, g', s') => released_once g' s'
  end.
Proof.
  induction body as [|a body IH]; intros g s Hit; simpl;
    pose proof (resume_next_cases rd g s Hit) as Hn;
    destruct (resume rd g s Next) as [[g' s'] [v| |t]]; try done.
  - by destruct Hn.
  - destruct Hn as [Hit' ->]. destruct a.
    + by apply IH.
    + pose proof (resume_return_yield rd s' Hit') as Hr.
      by destruct (resume rd SuspendedYield s' Return) as [[g'' s''] ?].
    + pose proof (resume_return_yield rd s' Hit') as Hr.
      by destruct (resume rd SuspendedYield s' Return) as [[g'' s''] ?].
Qed.

Lemma resume_balanced rd g s (r : request E) :
  balanced g s ->
  match resume rd g s r with (g', s', _) => balanced g' s' end.
Proof.
  unfold resume, loop_turn.
  destruct g, r; simpl; intros [Hg Hr];
    repeat match goal with
           | |- context [if ?b then _ else _] => destruct b
           | |- context [match rd ?n with _ => _ end] => destruct (rd n)
           end; simpl; lia.
Qed.

(** For any requests at all, in any order, on any stream: releases never
    outnumber acquisitions, there is at most one of each, and a completed
    generator has released what it acquired. *)
Lemma run_balanced rd (rs : list (request E)) g s :
  balanced g s ->
  match run rd g s rs with (g', s') => balanced g' s' end.
Proof.
  revert g s; induction rs as [|r rs IH]; intros g s Hb; simpl; [done |].
  pose proof (resume_balanced rd g s r Hb) as Hres.
  destruct (resume rd g s r) as [[g1 s1] resp]. by apply IH.
Qed.

(** Entering the body takes the reader and then behaves like any other
    turn of the loop. *)
Lemma forAwait_enter rd (body : list (body_action E)) :
  forAwait rd body =
  forAwait_from rd SuspendedYield (mkStream true 0 1 0) body.
Proof. by destruct body. Qed.

Lemma forAwait_from_values rd (n m : nat) (body : list (body_action E)) :
  (forall k, (k < n)%nat -> exists v, rd (m + k)%nat = ReadValue v) ->
  forAwait_from rd SuspendedYield (mkStream true m 1 0)
    (replicate n Continue ++ body)
  = forAwait_from rd SuspendedYield (mkStream true (m + n) 1 0) body.
Proof.
  revert m; induction n as [|n IH]; intros m Hv.
  - by rewrite Nat.add_0_r.
  - destruct (Hv 0%nat) as [v Hv0]; [lia |]. rewrite Nat.add_0_r in Hv0.
    simpl. unfold loop_turn. simpl. rewrite Hv0.
    rewrite IH.
    + by replace (S m + n)%nat with (m + S n)%nat by lia.
    + intros k Hk. destruct (Hv (S k)) as [w Hw]; [lia |].
      exists w. by replace (S m + k)%nat with (m + S k)%nat by lia.
Qed.

(** Exit path 1, normal completion: the reader reports done after [n]
    values. *)
Lemma forAwait_done_path rd (n : nat) (body : list (body_action E)) :
  (forall k, (k < n)%nat -> exists v, rd k = ReadValue v) ->
  rd n = ReadDone ->
  forAwait rd (replicate n Continue ++ body)
  = (ExitDone, Completed, mkStream false (S n) 1 1).
Proof.
  intros Hv Hd. rewrite forAwait_enter, forAwait_from_values by done.
  simpl. destruct body; simpl; unfold loop_turn; simpl; by rewrite Hd.
Qed.

(** Exit path 2, early termination: the consumer breaks out on the
    [n+1]-th value; [n = 0] is stopping after the first value. *)
Lemma forAwait_break_path rd (n : nat) (body : list (body_action E)) :
  (forall k, (k <= n)%nat -> exists v, rd k = ReadValue v) ->
  forAwait rd (replicate n Continue ++ Break :: body)
  = (ExitBreak, Completed, mkStream false (S n) 1 1).
Proof.
  intros Hv. rewrite forAwait_enter, forAwait_from_values.
  - destruct (Hv n) as [v Hn]; [lia |].
    simpl. unfold loop_turn. simpl. by rewrite Hn.
  - intros k Hk. apply Hv. simpl. lia.
Qed.

(** Exit path 3a, an error thrown by the loop body on the [n+1]-th
    value. *)
Lemma forAwait_body_error_path rd (n : nat) (e : E)
    (body : list (body_action E)) :
  (forall k, (k <= n)%nat -> exists v, rd k = ReadValue v) ->
  forAwait rd (replicate n Continue ++ ThrowInBody e :: body)
  = (ExitBodyError e, Completed, mkStream false (S n) 1 1).
Proof.
  intros Hv. rewrite forAwait_enter, forAwait_from_values.
  - destruct (Hv n) as [v Hn]; [lia |].
    simpl. unfold loop_turn. simpl. by rewrite Hn.
  - intros k Hk. apply Hv. simpl. lia.
Qed.

(** Exit path 3b, an error thrown by the reader after [n] values. *)
Lemma forAwait_read_error_path rd (n : nat) (e : E)
    (body : list (body_action E)) :
  (forall k, (k < n)%nat -> exists v, rd k = ReadValue v) ->
  rd n = ReadRejects e ->
  forAwait rd (replicate n Continue ++ body)
  = (ExitIteratorError (Raised e), Completed, mkStream false (S n) 1 1).
Proof.
  intros Hv Hd. rewrite forAwait_enter, forAwait_from_values by done.
  simpl. destruct body; simpl; unfold loop_turn; simpl; by rewrite Hd.
Qed.

(** A consumer that asks [return()] before its first [next()] never
    makes the body run: no reader is taken and none is released. *)
Lemma return_before_start rd :
  run rd SuspendedStart fresh_stream [Return]
  = (Completed, fresh_stream).
Proof. reflexivity. Qed.

(** C4: for every underlying reader and every consumer, as soon as the
    [for await] loop over [streamToAsyncIterable(stream)] is left (the
    reader reported done, the consumer broke out after any number of
    values, the loop body threw, or a read rejected) the generator is
    completed, it took the reader once and released it exactly once,
    and no later request releases it again. *)
Theorem C4_reader_released_exactly_once
    rd (body : list (body_action E)) (rs : list (request E)) exit g s :
  forAwait rd body = (exit, g, s) ->
  exit <> StillIterating ->
  g = Completed /\ getReader_calls s = 1%nat /\
  releaseLock_calls s = 1%nat /\ locked s = false /\
  run rd g s rs = (g, s).
Proof.
  intros Hrun Hexit.
  assert (iterating SuspendedStart fresh_stream) as Hit
    by done.
  pose proof (forAwait_from_cases rd body _ _ Hit) as Hcases.
  fold (forAwait rd body) in Hcases. rewrite Hrun in Hcases.
  assert (released_once g s) as (-> & Hl & Hg & Hr)
    by (by destruct exit).
  repeat split; try done. apply run_completed.
Qed.

(** While the consumer is still inside the loop the reader is held, not
    released. *)
Lemma forAwait_holds_reader rd (body : list (body_action E)) g s :
  forAwait rd body = (StillIterating, g, s) ->
  g = SuspendedYield /\ locked s = true /\
  releaseLock_calls s = 0%nat.
Proof.
  intros Hrun.
  assert (iterating SuspendedStart fresh_stream) as Hit
    by done.
  pose proof (forAwait_from_cases rd body _ _ Hit) as Hcases.
  fold (forAwait rd body) in Hcases. rewrite Hrun in Hcases.
  destruct g; simpl in Hcases; [| tauto | done].
  exfalso. revert Hrun. rewrite forAwait_enter.
  generalize (mkStream true 0 1 0). clear.
  induction body as [|a body IH]; intros s0; simpl; unfold loop_turn;
    destruct (rd (reads s0)); simpl; try discriminate.
  destruct a; simpl; try discriminate. apply IH.
Qed.
End Props.

(** Stopping after the first value of a reader that would go on for ever. *)
Lemma C4_reader_released_witness :
  forAwait (T:=nat) (E:=unit) (fun k => ReadValue k) [Break]
    = (ExitBreak, Completed, mkStream false 1 1 1) /\
  ExitBreak <> StillIterating (E:=unit) /\
  releaseLock_calls (mkStream false 1 1 1) = 1%nat.
Proof.
  split; [reflexivity |]. split; [discriminate |].
  apply (C4_reader_released_exactly_once (T:=nat) (E:=unit)
           (fun k => ReadValue k) [Break] [] ExitBreak Completed
           (mkStream false 1 1 1)); [reflexivity | discriminate].
Defined.
End StreamAdapterProps.

(** ** The OpenAI-compatible stream *)

Module OpenAIStreamProps.
Import OpenAIStream.

Lemma step_aborted (p : pump) (ev : event) :
  aborted p = true -> aborted (step p ev) = true.
Proof.
  intros Ha. unfold step. destruct (status p); [| done ..].
  destruct ev as [c | | e |]; simpl; rewrite ?Ha; simpl; try done.
Qed.

(** Once the signal is aborted, one more event changes neither the number
    of chunk requests nor what was forwarded. *)
Lemma step_after_abort (p : pump) (ev : event) :
  aborted p = true ->
  next_calls (step p ev) = next_calls p /\
  enqueued (step p ev) = enqueued p.
Proof.
  intros Ha. unfold step. destruct (status p); [| done ..].
  destruct ev as [c | | e |]; simpl; rewrite ?Ha; simpl; done.
Qed.

Lemma run_after_abort (evs : list event) (p : pump) :
  aborted p = true ->
  next_calls (run p evs) = next_calls p /\
  enqueued (run p evs) = enqueued p.
Proof.
  revert p; induction evs as [|ev evs IH]; intros p Ha; simpl; [done |].
  destruct (step_after_abort p ev Ha) as [Hn Hq].
  destruct (IH (step p ev) (step_aborted p ev Ha)) as [Hn' Hq'].
  unfold run in *. simpl. split; congruence.
Qed.

(** Once the signal is aborted, whatever the outstanding request settles
    with ends the loop. *)
Lemma delivery_after_abort (p : pump) (ev : event) :
  aborted p = true -> is_delivery ev = true -> status (step p ev) <> Pumping.
Proof.
  intros Ha Hd. unfold step. destruct (status p) eqn:Hs.
  - destruct ev as [c | | e |]; simpl; rewrite ?Ha; simpl; rewrite ?Ha;
      done.
  - by rewrite Hs.
  - by rewrite Hs.
Qed.

(** Cancelling the stream while [start] is pumping fires the signal. *)
Lemma cancel_fires_signal (p : pump) :
  status p = Pumping -> aborted (step p StreamCancelled) = true.
Proof. intros Hs. unfold step. by rewrite Hs. Qed.

(** Without the signal, every chunk is followed by one more request. *)
Lemma chunk_requests_next (p : pump) (c : Chunk) (ch : Choice)
    (rest : list Choice) :
  status p = Pumping -> aborted p = false -> choices c = ch :: rest ->
  next_calls (step p (ChunkArrives c)) = S (next_calls p) /\
  enqueued (step p (ChunkArrives c)) = enqueued p ++ [text ch].
Proof. intros Hs Ha Hc. unfold step. by rewrite Hs, Ha, Hc. Qed.

(** C5: on the OpenAI-compatible path, once the cancellation signal has
    fired, no further chunk request is issued and no further delta is
    forwarded, whatever happens afterwards; and the consumption loop stops
    as soon as the request that was outstanding settles. *)
Theorem C5_no_chunk_request_after_abort (p : pump) (evs : list event) :
  aborted p = true ->
  next_calls (run p evs) = next_calls p /\
  enqueued (run p evs) = enqueued p /\
  (forall ev, is_delivery ev = true -> status (step p ev) <> Pumping).
Proof.
  intros Ha. destruct (run_after_abort evs p Ha) as [Hn Hq].
  repeat split; try done. intros ev. by apply delivery_after_abort.
Qed.

(** One delta forwarded, then the stream is cancelled, then two more chunks
    arrive: still the two requests made before the cancellation. *)
Lemma C5_no_chunk_request_witness :
  let c := mkChunk [mkChoice (js "a")] in
  let p := run started [ChunkArrives c; StreamCancelled] in
  aborted p = true /\
  next_calls p = 2%nat /\
  next_calls (run p [ChunkArrives c; ChunkArrives c]) = 2%nat.
Proof.
  split; [reflexivity |]. split; [reflexivity |].
  apply (C5_no_chunk_request_after_abort
           (run started [ChunkArrives (mkChunk [mkChoice (js "a")]);
                         StreamCancelled])
           [ChunkArrives (mkChunk [mkChoice (js "a")]);
            ChunkArrives (mkChunk [mkChoice (js "a")])]).
  reflexivity.
Defined.
End OpenAIStreamProps.

(** ** Generation *)

Module GenerationProps.
Import OpenAIStream Generation.

Section Props.
Variable env : Env.
Variables (defaultModel : BackendModel) (randomEndpoint : Endpoint).
Variables (prompt : jstring) (parameters : option (gmap jstring jsval)).

Let params := newParameters (model_parameters defaultModel) parameters.
Let call := upstream_request defaultModel randomEndpoint params prompt.
Let generate :=
  generateFromDefaultEndpoint env defaultModel randomEndpoint prompt
    parameters.

(** Lookup in the merged parameters. *)
Lemma newParameters_lookup (defaults : gmap jstring jsval)
    (overrides : option (gmap jstring jsval)) (k : jstring) :
  newParameters defaults overrides !! k =
  if bool_decide (k = js "return_full_text") then Some (JBool false)
  else match default ∅ overrides !! k with
       | Some v => Some v
       | None => defaults !! k
       end.
Proof.
  unfold newParameters. case_bool_decide as Hk.
  - subst k. apply lookup_insert_eq.
  - rewrite lookup_insert_ne by done. rewrite lookup_union.
    destruct (default ∅ overrides !! k), (defaults !! k); done.
Qed.

(** Whatever the backend answers, the function makes one upstream call
    and no other. *)
Lemma generate_calls_once : (generate []).2 = [call].
Proof.
  unfold generate, generateFromDefaultEndpoint, bind, upstream, lift,
    ret, throw. fold params. fold call. simpl.
  destruct (is_openai randomEndpoint).
  - destruct (create_reply env call) as [c | e]; [| done]. simpl.
    destruct (read_body env (body_of_completion c)); [| done].
    destruct (JSON_parse env value) as [results |]; [| done].
    destruct (index0 results) as [first |]; [| done].
    destruct (generated_text_of first) as [raw |]; [| done].
    by destruct (as_string raw).
  - destruct (fetch_reply env call) as [resp | e]; [| done].
    destruct (negb (ok resp)).
    + by destruct (Response_text env resp).
    + destruct (resp_body resp) as [b |]; [| done].
      destruct (read_body env b); [| done].
      destruct (JSON_parse env value) as [results |]; [| done].
      destruct (index0 results) as [first |]; [| done].
      destruct (generated_text_of first) as [raw |]; [| done].
      by destruct (as_string raw).
Qed.

(** On the OpenAI-compatible path the [Response] is built locally with
    status 200 and a body: neither of the two [throw new Error] guards
    can fire there. *)
Lemma openai_response_ok_with_body (c : Completion) :
  ok (mkResponse 200 (Some (body_of_completion c))) = true /\
  resp_body (mkResponse 200 (Some (body_of_completion c))) <> None.
Proof. done. Qed.

Lemma generate_buffered_success (resp : Response) (b : Body)
    (result : jstring) :
  is_openai randomEndpoint = false ->
  fetch_reply env call = Returned resp ->
  ok resp = true ->
  resp_body resp = Some b ->
  read_body env b = Returned result ->
  generate [] = (after_parse env prompt params result, [call]).
Proof.
  intros Hep Hreply Hok Hbody Hread.
  unfold generate, generateFromDefaultEndpoint, bind, upstream, lift,
    ret, throw, after_parse. fold params. fold call. simpl.
  rewrite Hep, Hreply, Hok, Hbody, Hread. simpl.
  destruct (JSON_parse env result) as [results |]; [| done].
  destruct (index0 results) as [first |]; [| done].
  destruct (generated_text_of first) as [raw |]; [| done].
  by destruct (as_string raw).
Qed.
End Props.

(** C9: the effective parameters of a request are the model's defaults
    overridden key by key by the request's parameters, with
    [return_full_text] set to [false] whatever either of them says; and
    they are the parameters the one upstream call is built from. *)
Theorem C9_effective_parameters
    (env : Env) (defaultModel : BackendModel) (randomEndpoint : Endpoint)
    (prompt : jstring) (parameters : option (gmap jstring jsval))
    (k : jstring) :
  newParameters (model_parameters defaultModel) parameters !! k
  = (if bool_decide (k = js "return_full_text") then Some (JBool false)
     else match default ∅ parameters !! k with
          | Some v => Some v
          | None => model_parameters defaultModel !! k
          end) /\
  (generateFromDefaultEndpoint env defaultModel randomEndpoint prompt
     parameters []).2
  = [upstream_request defaultModel randomEndpoint
       (newParameters (model_parameters defaultModel) parameters) prompt].
Proof.
  split; [apply newParameters_lookup | apply generate_calls_once].
Qed.

(** The loop of [aws.fetch]: it sends at least one request and at most
    one more than its retries; it settles with the answer to the last
    request sent; every answer before that one was a response with a
    status of 500 or more, or 429; and when it stops before its last
    round, the last answer is not such a response. *)
Lemma AwsClient_fetch_from_sent (send : nat -> outcome Response)
    (left i : nat) :
  let n := (AwsClient_fetch_from send i left).2 in
  (i < n <= i + left + 1)%nat /\
  (AwsClient_fetch_from send i left).1 = send (n - 1)%nat /\
  (forall j, (i <= j < n - 1)%nat ->
     exists res, send j = Returned res /\ settles res = false) /\
  ((n < i + left + 1)%nat ->
   forall res, send (n - 1)%nat = Returned res -> settles res = true).
Proof.
  revert i. induction left as [|left IH]; intros i; cbv zeta; simpl.
  - rewrite Nat.sub_0_r.
    split; [lia |]. split; [done |]. split; intros; lia.
  - destruct (send i) as [res | e] eqn:Hsend.
    + destruct (settles res) eqn:Hres; simpl.
      * rewrite Nat.sub_0_r.
        split; [lia |]. split; [done |]. split; [intros; lia |].
        intros _ res'. rewrite Hsend. by intros [= <-].
      * destruct (IH (S i)) as (Hn & Hlast & Hbefore & Hearly).
        split; [lia |]. split; [done |]. split.
        -- intros j Hj. destruct (decide (j = i)) as [-> | Hne].
           ++ by exists res.
           ++ apply Hbefore. lia.
        -- intros Hlt. apply Hearly. lia.
    + simpl. rewrite Nat.sub_0_r.
      split; [lia |]. split; [done |]. split; [intros; lia |].
      intros _ res. by rewrite Hsend.
Qed.

Section Paths.
Variable env : Env.
Variables (defaultModel : BackendModel) (randomEndpoint : Endpoint).
Variables (prompt : jstring) (parameters : option (gmap jstring jsval)).

Let params := newParameters (model_parameters defaultModel) parameters.
Let call := upstream_request defaultModel randomEndpoint params prompt.
Let generate :=
  generateFromDefaultEndpoint env defaultModel randomEndpoint prompt
    parameters.

(** The TGI and SageMaker paths, answer not 2xx. *)
Lemma generate_not_ok (resp : Response) :
  is_openai randomEndpoint = false ->
  fetch_reply env call = Returned resp ->
  ok resp = false ->
  generate []
  = (match Response_text env resp with
     | Returned message => Thrown (Error message)
     | Thrown e => Thrown e
     end, [call]).
Proof.
  intros Hep Hreply Hok.
  unfold generate, generateFromDefaultEndpoint, bind, upstream, lift,
    ret, throw. fold params. fold call.
  simpl. rewrite Hep, Hreply, Hok. simpl.
  by destruct (Response_text env resp).
Qed.

(** The OpenAI-compatible path: the response is built locally with
    status 200 around the stream, so neither guard is in the way. *)
Lemma generate_openai :
  is_openai randomEndpoint = true ->
  generate []
  = (match create_reply env call with
     | Thrown e => Thrown e
     | Returned completion =>
         match read_body env (body_of_completion completion) with
         | Thrown e => Thrown e
         | Returned result => after_parse env prompt params result
         end
     end, [call]).
Proof.
  intros Hep.
  unfold generate, generateFromDefaultEndpoint, bind, upstream, lift,
    ret, throw, after_parse. fold params. fold call.
  simpl. rewrite Hep.
  destruct (create_reply env call) as [c | e]; [| done]. simpl.
  destruct (read_body env (body_of_completion c)) as [result |];
    [| done].
  destruct (JSON_parse env result) as [results |]; [| done].
  destruct (index0 results) as [first |]; [| done].
  destruct (generated_text_of first) as [raw |]; [| done].
  by destruct (as_string raw).
Qed.

(** The requests behind the one call of the TGI and SageMaker paths. *)
Lemma requests_of_call (resp : Response) :
  is_openai randomEndpoint = false ->
  fetch_reply env call = Returned resp ->
  exists n,
    requests_sent env call = Some n /\
    network_reply env call (n - 1)%nat = Returned resp /\
    (is_sagemaker randomEndpoint = false -> n = 1%nat) /\
    (is_sagemaker randomEndpoint = true ->
       (1 <= n <= 11)%nat /\
       (settles resp = false -> n = 11%nat) /\
       (forall j, (j < n - 1)%nat ->
          exists res,
            network_reply env call j = Returned res /\
            settles res = false)).
Proof.
  intros Hep. subst call.
  destruct randomEndpoint as [| url ak sk st w | h url auth w];
    [done | |]; simpl.
  - set (c := AwsFetch url ak sk st (request_body params prompt)).
    unfold AwsClient_fetch.
    destruct (AwsClient_fetch_from_sent (network_reply env c)
                aws_retries 0) as (Hn & Hlast & Hbefore & Hearly).
    set (n := (AwsClient_fetch_from (network_reply env c) 0
                 aws_retries).2) in *.
    unfold aws_retries in *. simpl in Hn.
    intros Hreply. rewrite Hlast in Hreply.
    exists n. repeat split; try done; try lia.
    + intros Hresp.
      destruct (decide (n = 11%nat)) as [-> | Hne]; [done |].
      rewrite (Hearly ltac:(simpl; lia) resp Hreply) in Hresp. done.
    + intros j Hj. apply Hbefore. lia.
  - intros Hreply. exists 1%nat. by repeat split.
Qed.
End Paths.

(** C6: an answer whose status is not 2xx. On the TGI and SageMaker paths
    the function throws an [Error] whose message is the text of that
    answer's body (or the failure of reading it), after the one [fetch] or
    [aws.fetch] call it makes. Behind that call [fetch] sends one request;
    [aws.fetch] sends between 1 and 11: every answer before the one the
    function sees had a status of 500 or more, or 429, and when the one it
    sees is of that kind too, all 11 were sent. On the OpenAI-compatible
    path the response that is tested is built locally with status 200, so
    the test never fails there: a rejection of [completions.create] is
    thrown on as it is, after that one call. *)
Theorem C6_non_2xx_fails_after_one_call
    (env : Env) (defaultModel : BackendModel) (randomEndpoint : Endpoint)
    (prompt : jstring) (parameters : option (gmap jstring jsval)) :
  let params := newParameters (model_parameters defaultModel) parameters in
  let call := upstream_request defaultModel randomEndpoint params prompt in
  let generate :=
    generateFromDefaultEndpoint env defaultModel randomEndpoint prompt
      parameters [] in
  (forall resp : Response,
     is_openai randomEndpoint = false ->
     fetch_reply env call = Returned resp ->
     ok resp = false ->
     generate
     = (match Response_text env resp with
        | Returned message => Thrown (Error message)
        | Thrown e => Thrown e
        end, [call]) /\
     exists n,
       requests_sent env call = Some n /\
       network_reply env call (n - 1)%nat = Returned resp /\
       (is_sagemaker randomEndpoint = false -> n = 1%nat) /\
       (is_sagemaker randomEndpoint = true ->
          (1 <= n <= 11)%nat /\
          (settles resp = false -> n = 11%nat) /\
          (forall j, (j < n - 1)%nat ->
             exists res,
               network_reply env call j = Returned res /\
               settles res = false))) /\
  (is_openai randomEndpoint = true ->
   generate
   = (match create_reply env call with
      | Thrown e => Thrown e
      | Returned completion =>
          match read_body env (body_of_completion completion) with
          | Thrown e => Thrown e
          | Returned result => after_parse env prompt params result
          end
      end, [call])).
Proof.
  intros params call generate. split.
  - intros resp Hep Hreply Hok. split.
    + by apply generate_not_ok.
    + by apply requests_of_call.
  - apply generate_openai.
Qed.

(** C10: on the TGI and SageMaker paths, with a 2xx answer whose body
    reads as the text [result]. If [result] parses to the empty array the
    function throws a TypeError (reading [generated_text] of
    [undefined]), which is neither the empty-response error nor a text.
    And a text is returned exactly when [result] parses to a value whose
    element or property [0] is an object carrying a string
    [generated_text], be that value an array or an object with a key
    [0]; the text is that string post-processed. *)
Theorem C10_first_element_unguarded
    (env : Env) (defaultModel : BackendModel) (randomEndpoint : Endpoint)
    (prompt : jstring) (parameters : option (gmap jstring jsval))
    (resp : Response) (b : Body) (result : jstring) :
  let params := newParameters (model_parameters defaultModel) parameters in
  let call := upstream_request defaultModel randomEndpoint params prompt in
  let generate :=
    generateFromDefaultEndpoint env defaultModel randomEndpoint prompt
      parameters [] in
  is_openai randomEndpoint = false ->
  fetch_reply env call = Returned resp ->
  ok resp = true ->
  resp_body resp = Some b ->
  read_body env b = Returned result ->
  (JSON_parse env result = Some (JArr []) ->
   generate.1 = Thrown TypeError) /\
  (forall text,
     generate.1 = Returned text <->
     exists results props generated_text,
       JSON_parse env result = Some results /\
       ((exists rest, results = JArr (JObj props :: rest)) \/
        (exists o, results = JObj o /\
                   o !! js "0" = Some (JObj props))) /\
       props !! js "generated_text" = Some (JStr generated_text) /\
       text = clean (PUBLIC_SEP_TOKEN env) generated_text prompt
                (stop_sequences params)).
Proof.
  intros params call generate Hep Hreply Hok Hbody Hread.
  unfold generate.
  rewrite (generate_buffered_success env defaultModel randomEndpoint prompt
             parameters resp b result Hep Hreply Hok Hbody Hread).
  fold params. unfold after_parse. simpl. split.
  - intros ->. reflexivity.
  - intros text. split.
    + destruct (JSON_parse env result) as [results |]; [| done].
      assert (forall first,
                match generated_text_of first with
                | Thrown e => Thrown e
                | Returned raw =>
                    match as_string raw with
                    | Thrown e => Thrown e
                    | Returned generated_text =>
                        Returned (clean (PUBLIC_SEP_TOKEN env)
                                    generated_text prompt
                                    (stop_sequences params))
                    end
                end = Returned text ->
                exists props generated_text,
                  first = JObj props /\
                  props !! js "generated_text"
                  = Some (JStr generated_text) /\
                  text = clean (PUBLIC_SEP_TOKEN env) generated_text
                           prompt (stop_sequences params)) as Hfirst.
      { intros first. destruct first as [| | | | | |props]; simpl;
          try done.
        unfold get.
        destruct (props !! js "generated_text") as [v |] eqn:Hv; simpl;
          [| done].
        destruct v as [| | | | g | |]; simpl; try done.
        intros [= <-]. by exists props, g. }
      destruct results as [| | | | s | items | o]; simpl; try done.
      * destruct s; done.
      * destruct items as [|first rest]; simpl; [done |].
        intros H. apply Hfirst in H as (props & g & -> & Hg & ->).
        exists (JArr (JObj props :: rest)), props, g.
        repeat split; try done. left. by exists rest.
      * intros H. apply Hfirst in H as (props & g & Hget & Hg & ->).
        exists (JObj o), props, g.
        repeat split; try done. right. exists o. split; [done |].
        unfold get in Hget.
        destruct (o !! js "0") as [v |]; simpl in Hget; [| done].
        by rewrite Hget.
    + intros (results & props & g & -> & Hshape & Hg & ->).
      destruct Hshape as [[rest ->] | (o & -> & Ho)]; simpl.
      * unfold get. by rewrite Hg.
      * unfold get. rewrite Ho. simpl. unfold get. by rewrite Hg.
Qed.

(** A TGI endpoint that answers 500 with the body [oops]: one request.
    And a SageMaker endpoint that answers 503 twice and then 404: the
    function sees the 404, the third answer. *)
Lemma C6_non_2xx_witness :
  (generateFromDefaultEndpoint
     (Examples.example_env (Returned (Examples.oops 500)))
     Examples.example_model Examples.example_tgi (js "Hello") None []
   = (Thrown (Error (js "oops")),
      [Fetch (js "http://tgi/") (js "Bearer t")
         (request_body
            (newParameters (model_parameters Examples.example_model) None)
            (js "Hello"))]) /\
   requests_sent
     (Examples.example_env (Returned (Examples.oops 500)))
     (upstream_request Examples.example_model Examples.example_tgi
        (newParameters (model_parameters Examples.example_model) None)
        (js "Hello"))
   = Some 1%nat) /\
  (generateFromDefaultEndpoint
     (Examples.example_network_env Examples.busy_then_gone)
     Examples.example_model Examples.example_sagemaker (js "Hello") None []
   = (Thrown (Error (js "oops")),
      [AwsFetch (js "https://runtime.sagemaker/") (js "AK") (js "SK") None
         (request_body
            (newParameters (model_parameters Examples.example_model) None)
            (js "Hello"))]) /\
   requests_sent
     (Examples.example_network_env Examples.busy_then_gone)
     (upstream_request Examples.example_model Examples.example_sagemaker
        (newParameters (model_parameters Examples.example_model) None)
        (js "Hello"))
   = Some 3%nat).
Proof.
  split.
  - destruct (C6_non_2xx_fails_after_one_call
                (Examples.example_env (Returned (Examples.oops 500)))
                Examples.example_model Examples.example_tgi (js "Hello")
                None) as [Hfetch _].
    destruct (Hfetch (Examples.oops 500) eq_refl eq_refl eq_refl)
      as [Hgen (n & Hn & _ & Hone & _)].
    split; [exact Hgen |].
    rewrite Hn. f_equal. by apply Hone.
  - destruct (C6_non_2xx_fails_after_one_call
                (Examples.example_network_env Examples.busy_then_gone)
                Examples.example_model Examples.example_sagemaker
                (js "Hello") None) as [Hfetch _].
    destruct (Hfetch (Examples.oops 404) eq_refl eq_refl eq_refl)
      as [Hgen _].
    split; [exact Hgen | reflexivity].
Defined.

(** A SageMaker endpoint that answers 500 with the body [oops] every
    time: the function fails with that text, and eleven requests were
    sent, not one. *)
Lemma C6_sagemaker_retries_counterexample :
  let env := Examples.example_env (Returned (Examples.oops 500)) in
  let call :=
    upstream_request Examples.example_model Examples.example_sagemaker
      (newParameters (model_parameters Examples.example_model) None)
      (js "Hello") in
  fetch_reply env call = Returned (Examples.oops 500) /\
  ok (Examples.oops 500) = false /\
  generateFromDefaultEndpoint env Examples.example_model
    Examples.example_sagemaker (js "Hello") None []
  = (Thrown (Error (js "oops")), [call]) /\
  requests_sent env call = Some 11%nat /\
  requests_sent env call <> Some 1%nat.
Proof. repeat split; try reflexivity. vm_compute. discriminate. Qed.

(** A 200 answer whose body is the two bytes of [[]]. *)
Lemma C10_empty_array_witness :
  (generateFromDefaultEndpoint
     (Examples.example_env
        (Returned (mkResponse 200
           (Some (mkBody [Bytes Examples.empty_array_bytes] None)))))
     Examples.example_model Examples.example_tgi (js "Hello") None []).1
  = Thrown TypeError.
Proof.
  apply (C10_first_element_unguarded
           (Examples.example_env
              (Returned (mkResponse 200
                 (Some (mkBody [Bytes Examples.empty_array_bytes] None)))))
           Examples.example_model Examples.example_tgi (js "Hello") None
           (mkResponse 200
              (Some (mkBody [Bytes Examples.empty_array_bytes] None)))
           (mkBody [Bytes Examples.empty_array_bytes] None)
           (js "[]"));
    reflexivity.
Defined.

(** A 200 answer whose body is the JSON text of an object with a key
    [0]: the parsed value is no array, and a text is returned. *)
Lemma C10_object_body_counterexample :
  let env :=
    Examples.example_network_env
      (fun _ =>
         Returned (mkResponse 200
           (Some (mkBody
              [Bytes (Examples.ascii_encode Examples.object_body_text)]
              None)))) in
  JSON_parse env Examples.object_body_text = Some Examples.object_body /\
  (forall items, Examples.object_body <> JArr items) /\
  generateFromDefaultEndpoint env Examples.example_model
    Examples.example_tgi (js "Hello") None []
  = (Returned (js "hi"),
     [Fetch (js "http://tgi/") (js "Bearer t")
        (request_body
           (newParameters (model_parameters Examples.example_model) None)
           (js "Hello"))]).
Proof. repeat split; try reflexivity. intros items. discriminate. Qed.
End GenerationProps.

(** ** Configuration *)

Module ZodProps.
Import Zod.

Lemma issues_of_ap {A B} (Q : ZodIssue -> Prop)
    (f : parsed (A -> B)) (x : parsed A) :
  Forall Q (issues_of f) -> Forall Q (issues_of x) ->
  Forall Q (issues_of (f <*> x)).
Proof.
  intros Hf Hx. destruct f, x; simpl in *;
    rewrite ?Forall_app; auto.
Qed.

Lemma issues_of_fmap {A B} (g : A -> B) (r : parsed A) :
  issues_of (fmap g r) = issues_of r.
Proof. by destruct r. Qed.

Lemma when_valid_ap {A B} (P : B -> Prop)
    (f : parsed (A -> B)) (x : parsed A) :
  when_valid (fun g => forall a, P (g a)) f -> when_valid P (f <*> x).
Proof. destruct f, x; simpl; auto. Qed.

Lemma when_valid_ap_value {A B} (P : B -> Prop)
    (f : parsed (A -> B)) (a : A) :
  when_valid (fun g => P (g a)) f -> when_valid P (f <*> Valid a).
Proof. destruct f; simpl; auto. Qed.

Lemma located_weaken {A} (p q : list path_item) (r : parsed A) :
  located (p ++ q) r -> located p r.
Proof.
  unfold located. intros H. eapply Forall_impl; [exact H |].
  intros i Hi. simpl in Hi. etrans; [| exact Hi]. by apply prefix_app_r.
Qed.

Lemma located_ap {A B} (p : list path_item)
    (f : parsed (A -> B)) (x : parsed A) :
  located p f -> located p x -> located p (f <*> x).
Proof. apply issues_of_ap. Qed.

Lemma located_valid {A} (p : list path_item) (a : A) : located p (Valid a).
Proof. constructor. Qed.

Lemma located_checked {A} (a : A) (codes : list issue_code)
    (p : list path_item) :
  located p (checked a codes p).
Proof.
  unfold located, checked. destruct codes as [|c codes]; [constructor |].
  simpl. constructor; [done |]. apply Forall_map, Forall_forall. by intros.
Qed.

Lemma located_here {A} (c : issue_code) (p : list path_item) :
  located p (Invalid (A:=A) [mkIssue c p]).
Proof. unfold located. simpl. by constructor. Qed.

Section Located.
Variable is_url : jstring -> bool.
Variables HF_ACCESS_TOKEN OPENAI_API_KEY : jstring.

Lemma wl_string checks : well_located (z_string is_url checks).
Proof.
  intros p data. unfold z_string.
  destruct data; try apply located_here. apply located_checked.
Qed.

Lemma wl_number checks : well_located (z_number checks).
Proof.
  intros p data. unfold z_number.
  destruct data; try apply located_here. apply located_checked.
Qed.

Lemma wl_optional {A} (s : schema A) :
  well_located s -> well_located (z_optional s).
Proof.
  intros Hs p data. unfold z_optional, located.
  destruct data; rewrite ?issues_of_fmap; try apply Hs. constructor.
Qed.

Lemma wl_default {A} (d : jsval) (s : schema A) :
  well_located s -> well_located (z_default d s).
Proof. intros Hs p data. unfold z_default. destruct data; apply Hs. Qed.

Lemma located_array_items {A} (s : schema A) (p : list path_item)
    (items : list jsval) :
  well_located s -> forall i, located p (array_items s p i items).
Proof.
  intros Hs. induction items as [|x rest IH]; intros i.
  - apply located_valid.
  - change (located p (Valid cons <*> s (p ++ [Index i]) x
                       <*> array_items s p (S i) rest)).
    apply located_ap; [apply located_ap |].
    + apply located_valid.
    + apply (located_weaken p [Index i]), Hs.
    + apply IH.
Qed.

Lemma wl_array {A} (s : schema A) :
  well_located s -> well_located (z_array s).
Proof.
  intros Hs p data. unfold z_array.
  destruct data; try apply located_here. by apply located_array_items.
Qed.

Lemma located_field {A : Type} (o : gmap jstring jsval) (p : list path_item)
    (key : string) (s : schema A) :
  well_located s -> located p (field o p key s).
Proof. intros Hs. apply (located_weaken p [Key (js key)]), Hs. Qed.

Lemma wl_object {A : Type}
    (shape : gmap jstring jsval -> list path_item -> parsed A) :
  (forall o p, located p (shape o p)) -> well_located (z_object shape).
Proof.
  intros Hs p data. unfold z_object.
  destruct data; try apply located_here. apply Hs.
Qed.

Lemma wl_promptExample : well_located (promptExample is_url).
Proof.
  apply wl_object. intros o p.
  repeat apply located_ap; try apply located_valid;
    apply located_field, wl_string.
Qed.

Lemma wl_parametersConfig : well_located (parametersConfig is_url).
Proof.
  apply wl_object. intros o p.
  repeat apply located_ap; try apply located_valid;
    apply located_field;
    repeat first [apply wl_optional | apply wl_array
                 | apply wl_number | apply wl_string].
Qed.

(** Issues of one key are not issues of another. *)
Lemma field_elsewhere {A : Type} (o : gmap jstring jsval) (key other : string)
    (s : schema A) :
  js key <> js other ->
  well_located s ->
  Forall (fun i => ~ under_key [] other i) (issues_of (field o [] key s)).
Proof.
  intros Hne Hs. unfold field.
  pose proof (Hs ([] ++ [Key (js key)]) (get o key)) as Hl.
  unfold located in Hl. eapply Forall_impl; [exact Hl |].
  intros i [k1 Hk1] [k2 Hk2]. rewrite Hk1 in Hk2. simpl in Hk2.
  injection Hk2 as Hk _. done.
Qed.

(** A missing key reads [undefined], which [.optional()] accepts. *)
Lemma field_optional_missing {A : Type} (o : gmap jstring jsval)
    (p : list path_item) (key : string) (s : schema A) :
  o !! js key = None -> field o p key (z_optional s) = Valid None.
Proof. intros H. unfold field, get. by rewrite H. Qed.

Ltac other_key :=
  apply field_elsewhere;
  [ vm_compute; discriminate
  | repeat first [ apply wl_optional | apply wl_default | apply wl_array
                 | apply wl_string | apply wl_number
                 | apply wl_promptExample | apply wl_parametersConfig ] ].

(** C3 (as found in the code): [endpoints] is optional. For an object
    without the [endpoints] key, parsing reports no issue at or below
    [endpoints]: if it fails, it fails on other keys; and if it succeeds,
    the parsed model has [endpoints] undefined, that is, no endpoint. *)
Theorem C3_missing_endpoints_is_accepted (o : gmap jstring jsval) :
  o !! js "endpoints" = None ->
  match parse (modelConfig is_url HF_ACCESS_TOKEN OPENAI_API_KEY)
          (JObj o) with
  | inl m => endpoints m = None
  | inr issues => Forall (fun i => ~ under_key [] "endpoints" i) issues
  end.
Proof.
  intros Hmissing. unfold parse, modelConfig, z_object.
  rewrite (field_optional_missing o [] "endpoints" _ Hmissing).
  set (r0 := _ <*> field o [] "parameters" _).
  assert (when_valid (fun m => endpoints m = None) r0) as Hvalid.
  { subst r0. apply when_valid_ap. apply when_valid_ap_value.
    do 17 apply when_valid_ap. simpl. reflexivity. }
  assert (Forall (fun i => ~ under_key [] "endpoints" i) (issues_of r0))
    as Hissues.
  { subst r0. repeat apply issues_of_ap; try (by constructor);
      other_key. }
  by destruct r0.
Qed.
End Located.

(** A model given by its name alone. *)
Lemma C3_missing_endpoints_witness :
  ({[ js "name" := JStr (js "m") ]} : gmap jstring jsval)
    !! js "endpoints" = None /\
  exists m,
    parse (modelConfig (fun _ => true) (js "hf_token") (js "sk-key"))
      (JObj {[ js "name" := JStr (js "m") ]}) = inl m /\
    endpoints m = None.
Proof.
  split; [reflexivity |].
  pose proof (C3_missing_endpoints_is_accepted (fun _ => true)
                (js "hf_token") (js "sk-key")
                {[ js "name" := JStr (js "m") ]} eq_refl) as H.
  destruct (parse _ _) as [m | issues] eqn:Hparse.
  - by exists m.
  - exfalso. vm_compute in Hparse. discriminate Hparse.
Defined.

(** C3 (as stated) fails: a model object without [endpoints] and without
    any URL is parsed successfully, alone and as the [MODELS] array, and the
    parsed model has no endpoint. *)
Lemma C3_missing_endpoints_counterexample :
  let m := mkModelConfig None (js "m") None None None None None None
             [] [] [] [] [] [] None default_chatPromptTemplate
             None None None in
  parse (modelConfig (fun _ => true) (js "hf_token") (js "sk-key"))
    (JObj {[ js "name" := JStr (js "m") ]}) = inl m /\
  modelsRaw (fun _ => true) (js "hf_token") (js "sk-key")
    (JArr [JObj {[ js "name" := JStr (js "m") ]}]) = inl [m].
Proof. split; vm_compute; reflexivity. Qed.
End ZodProps.

(** ** Further properties of the post-processing *)

Lemma trimEnd_app_settled (a b : jstring) :
  b <> [] -> trimEnd b = b -> trimEnd (a ++ b) = a ++ b.
Proof.
  intros Hb Ht. induction a as [|c a IH]; [done |].
  change (trimEnd ((c :: a) ++ b)) with
    (match trimEnd (a ++ b) with
     | [] => if isStrWhiteSpaceChar c then [] else [c]
     | r' => c :: r'
     end).
  rewrite IH. change ((c :: a) ++ b) with (c :: (a ++ b)).
  destruct (a ++ b) eqn:E; [| done].
  apply app_eq_nil in E as [_ ->]. done.
Qed.

Lemma trimEnd_app_white (t ws : jstring) :
  forallb isStrWhiteSpaceChar ws = true -> trimEnd (t ++ ws) = trimEnd t.
Proof.
  induction ws as [|c ws IH] using rev_ind; intros Hws.
  - by rewrite app_nil_r.
  - rewrite forallb_app in Hws. apply andb_true_iff in Hws as [Hws Hc].
    simpl in Hc. rewrite andb_true_r in Hc.
    rewrite app_assoc, trimEnd_snoc, Hc. by apply IH.
Qed.

Lemma endsWith_app (a p : jstring) : endsWith (a ++ p) p = true.
Proof. apply endsWith_suffix. by exists a. Qed.

Lemma trimPrefix_suffix (t p : jstring) : trimPrefix t p `suffix_of` t.
Proof.
  rewrite trimPrefix_drop. destruct (startsWith t p); [| done].
  apply suffix_drop.
Qed.

(** X1: the text returned by the post-processing never ends with a
    white-space or line-terminator code unit. *)
Theorem X1_clean_never_ends_in_white_space
    (sep raw prompt : jstring) (stops : list jstring) (t : jstring) (c : N) :
  clean sep raw prompt stops = t ++ [c] -> isStrWhiteSpaceChar c = false.
Proof.
  intros Hc. pose proof (clean_trimmed sep raw prompt stops) as Ht.
  rewrite Hc, trimEnd_snoc in Ht.
  destruct (isStrWhiteSpaceChar c); [| done].
  pose proof (prefix_length _ _ (trimEnd_prefix t)) as Hlen.
  rewrite Ht, length_app in Hlen. simpl in Hlen. lia.
Qed.

Lemma X1_clean_never_ends_in_white_space_witness :
  clean (js "</s>") (js "Hello there  STOP") (js "Hello") [js "STOP"]
    = js " ther" ++ [101%N] /\
  isStrWhiteSpaceChar 101 = false.
Proof.
  split; [reflexivity |].
  apply (X1_clean_never_ends_in_white_space (js "</s>")
           (js "Hello there  STOP") (js "Hello") [js "STOP"] (js " ther")).
  reflexivity.
Defined.

(** X2: the post-processing only cuts: what it returns is a contiguous
    piece of the raw generated text, so it is never longer than it. *)
Theorem X2_clean_is_a_piece_of_the_raw_text
    (sep raw prompt : jstring) (stops : list jstring) :
  (exists before after,
     raw = before ++ clean sep raw prompt stops ++ after) /\
  (length (clean sep raw prompt stops) <= length raw)%nat.
Proof.
  destruct (clean_prefix sep raw prompt stops) as [after Hafter].
  assert (trimPrefix (trimPrefix raw START_OF_TEXT) prompt `suffix_of` raw)
    as [before Hbefore].
  { etrans; apply trimPrefix_suffix. }
  assert (raw = before ++ clean sep raw prompt stops ++ after) as Hraw
    by (by rewrite <- Hafter).
  split; [by exists before, after |].
  rewrite Hraw at 2. rewrite !length_app. lia.
Qed.

(** X3: the intended use. When the raw text is the prompt echoed, then a
    text [t] without trailing white space, then white space, then a stop
    sequence that is not empty and does not itself end in white space,
    the result is exactly [t]; provided the separator token does not end
    the raw text and [t] does not end with the end-of-text marker. The
    same holds with the beginning-of-text marker in front of the prompt,
    and without it as long as the raw text does not start with the
    marker. (The text is trimmed before the stop sequence is looked for,
    which is why a stop sequence ending in white space is excluded.) *)
Theorem X3_clean_returns_the_text_between_prompt_and_stop
    (sep prompt t ws stop : jstring) :
  trimEnd t = t ->
  forallb isStrWhiteSpaceChar ws = true ->
  stop <> [] -> trimEnd stop = stop ->
  endsWith (t ++ ws ++ stop) sep = false ->
  endsWith t END_OF_TEXT = false ->
  clean sep (START_OF_TEXT ++ prompt ++ t ++ ws ++ stop) prompt [stop] = t /\
  (startsWith (prompt ++ t ++ ws ++ stop) START_OF_TEXT = false ->
   clean sep (prompt ++ t ++ ws ++ stop) prompt [stop] = t).
Proof.
  intros Ht Hws Hstop Hstop' Hsep Heos.
  assert (forall body,
            trimPrefix body prompt = t ++ ws ++ stop ->
            fold_left stop_step ([stop] ++ [END_OF_TEXT])
              (trimEnd (trimSuffix (trimPrefix body prompt) sep)) = t)
    as Htail.
  { intros body ->. rewrite (trimSuffix_no_match _ _ Hsep).
    rewrite !app_assoc, trimEnd_app_settled by done. simpl.
    rewrite (stop_step_nonempty _ _ Hstop), endsWith_app.
    rewrite length_app, Nat.add_sub, take_app_length.
    rewrite trimEnd_app_white, Ht by done.
    unfold stop_step. by rewrite Heos. }
  assert (trimPrefix (prompt ++ t ++ ws ++ stop) prompt = t ++ ws ++ stop)
    as Hprompt.
  { rewrite trimPrefix_drop, startsWith_app. apply drop_app_length. }
  split.
  - unfold clean. apply Htail.
    rewrite (trimPrefix_drop (START_OF_TEXT ++ _)), startsWith_app.
    by rewrite drop_app_length.
  - intros Hbos. unfold clean. apply Htail.
    by rewrite (trimPrefix_no_match _ _ Hbos).
Qed.

Lemma X3_clean_returns_the_text_witness :
  clean (js "</s>")
    (START_OF_TEXT ++ js "Q: hi" ++ js " A: yo" ++ js "  " ++ js "###")
    (js "Q: hi") [js "###"]
  = js " A: yo".
Proof.
  apply (X3_clean_returns_the_text_between_prompt_and_stop
           (js "</s>") (js "Q: hi") (js " A: yo") (js "  ") (js "###"));
    try reflexivity.
  discriminate.
Defined.

(** ** Further properties of the stream adapter *)

Module StreamAdapterExtra.
Import StreamAdapter Observations.

Section Extra.
Context {T E : Type}.
Implicit Types (rd : reader T E) (s : stream) (g : generator).

Lemma pull_from_yield rd (values : list T) (m : nat) :
  (forall k v, values !! k = Some v -> rd (m + k)%nat = ReadValue v) ->
  pull rd SuspendedYield (mkStream true m 1 0) (length values)
  = (map Yielded values, SuspendedYield,
     mkStream true (m + length values) 1 0).
Proof.
  revert m; induction values as [|v values IH]; intros m Hrd.
  - simpl. by rewrite Nat.add_0_r.
  - pose proof (Hrd 0%nat v eq_refl) as H0. rewrite Nat.add_0_r in H0.
    simpl. unfold loop_turn. simpl. rewrite H0.
    rewrite (IH (S m)).
    + simpl. do 3 f_equal. lia.
    + intros k w Hk. replace (S m + k)%nat with (m + S k)%nat by lia.
      by apply Hrd.
Qed.

(** X4: the adapter hands the reader's values to the consumer one by
    one, in the reader's order, without dropping or repeating any, and
    it reads lazily: [n] values asked for are [n] reads, never one
    ahead. *)
Theorem X4_values_in_order_one_read_each rd (values : list T) :
  (forall k v, values !! k = Some v -> rd k = ReadValue v) ->
  (pull rd SuspendedStart fresh_stream (length values)).1.1
    = map Yielded values /\
  reads (pull rd SuspendedStart fresh_stream (length values)).2
    = length values /\
  releaseLock_calls
    (pull rd SuspendedStart fresh_stream (length values)).2 = 0%nat.
Proof.
  intros Hrd. destruct values as [|v values]; [done |].
  pose proof (Hrd 0%nat v eq_refl) as H0.
  change (pull rd SuspendedStart fresh_stream (length (v :: values)))
    with (let '(g1, s1, r) := loop_turn rd (mkStream true 0 1 0) in
          let '(rs, g2, s2) := pull rd g1 s1 (length values) in
          (r :: rs, g2, s2)).
  unfold loop_turn. simpl. rewrite H0.
  rewrite (pull_from_yield rd values 1).
  - done.
  - intros k w Hk. by apply (Hrd (S k)).
Qed.

(** X5: whatever the consumer asks for, in whatever order, and whether
    or not the stream could be locked: the reader is taken at most once,
    it is never released more often than it was taken, it is not
    released while the generator is parked at [yield], and a completed
    generator has released it if it took it. *)
Theorem X5_any_requests_keep_release_balanced
    rd (rs : list (request E)) (was_locked : bool) :
  let '(g, s) := run rd SuspendedStart (mkStream was_locked 0 0 0) rs in
  (getReader_calls s <= 1)%nat /\
  (releaseLock_calls s <= getReader_calls s)%nat /\
  (g = SuspendedYield -> releaseLock_calls s = 0%nat) /\
  (g = Completed -> releaseLock_calls s = getReader_calls s).
Proof.
  pose proof (StreamAdapterProps.run_balanced rd rs SuspendedStart
                (mkStream was_locked 0 0 0)) as H.
  destruct (run rd SuspendedStart (mkStream was_locked 0 0 0) rs)
    as [g s].
  specialize (H (conj eq_refl eq_refl)).
  destruct g; simpl in H; destruct H as [H1 H2];
    repeat split; try done; lia.
Qed.

(** X6: on a stream that is already locked, [getReader()] throws before
    the [try] block: the adapter reads nothing and does not release the
    lock that somebody else holds, whatever is asked of it. *)
Theorem X6_locked_stream_is_left_alone rd (rs : list (request E)) s :
  locked s = true ->
  (run rd SuspendedStart s rs).2 = s /\
  (resume rd SuspendedStart s Next).2 = Rejected StreamLocked.
Proof.
  intros Hl. split.
  - destruct rs as [|r rs]; [done |]. simpl.
    destruct r; simpl; rewrite ?Hl; by rewrite StreamAdapterProps.run_completed.
  - simpl. by rewrite Hl.
Qed.

Lemma forAwait_from_still rd (body : list (body_action E)) (m : nat) g s :
  forAwait_from rd SuspendedYield (mkStream true m 1 0) body
    = (StillIterating, g, s) ->
  g = SuspendedYield /\ s = mkStream true (m + S (length body)) 1 0.
Proof.
  revert m; induction body as [|a body IH]; intros m; simpl;
    unfold loop_turn; simpl; destruct (rd m); simpl; try discriminate.
  - intros [= <- <-]. split; [done |]. f_equal. lia.
  - destruct a; simpl; try discriminate.
    intros H. apply IH in H as [-> ->]. split; [done |]. f_equal. lia.
Qed.

(** X7: as long as the consumer is still inside its [for await] loop,
    the adapter holds the reader it took, has not released it, and has
    read exactly one value more than the loop body has finished with. *)
Theorem X7_reader_held_while_iterating
    rd (body : list (body_action E)) g s :
  forAwait rd body = (StillIterating, g, s) ->
  g = SuspendedYield /\
  s = mkStream true (S (length body)) 1 0.
Proof.
  rewrite StreamAdapterProps.forAwait_enter. intros H.
  by apply forAwait_from_still in H.
Qed.
End Extra.

Lemma X4_values_in_order_witness :
  (pull (T:=nat) (E:=unit)
     (fun k => if (k <? 2)%nat then ReadValue (10 + k)%nat else ReadDone)
     SuspendedStart fresh_stream 2).1.1
  = [Yielded 10%nat; Yielded 11%nat].
Proof.
  apply (X4_values_in_order_one_read_each (T:=nat) (E:=unit)
           (fun k => if (k <? 2)%nat then ReadValue (10 + k)%nat
                     else ReadDone)
           [10%nat; 11%nat]).
  intros [|[|k]] v; simpl; intros [= <-]; reflexivity.
Defined.

Lemma X6_locked_stream_witness :
  (run (T:=nat) (E:=unit) (fun k => ReadValue k) SuspendedStart
     (mkStream true 3 0 0) [Next; Next; Return]).2
  = mkStream true 3 0 0.
Proof.
  apply (X6_locked_stream_is_left_alone (T:=nat) (E:=unit)
           (fun k => ReadValue k) [Next; Next; Return]
           (mkStream true 3 0 0)).
  reflexivity.
Defined.

Lemma X7_reader_held_witness :
  forAwait (T:=nat) (E:=unit) (fun k => ReadValue k) [Continue; Continue]
    = (StillIterating, SuspendedYield, mkStream true 3 1 0) /\
  mkStream true 3 1 0 = mkStream true (S (length [Continue (E:=unit);
                                                  Continue])) 1 0.
Proof.
  split; [reflexivity |].
  apply (X7_reader_held_while_iterating (T:=nat) (E:=unit)
           (fun k => ReadValue k) [Continue; Continue] SuspendedYield
           (mkStream true 3 1 0)).
  reflexivity.
Defined.
End StreamAdapterExtra.

(** ** Further properties of the OpenAI-compatible stream *)

Module OpenAIStreamExtra.
Import OpenAIStream Observations.

Lemma run_app (p : pump) (evs1 evs2 : list event) :
  run p (evs1 ++ evs2) = run (run p evs1) evs2.
Proof. apply fold_left_app. Qed.

Lemma run_settled (p : pump) (evs : list event) :
  status p <> Pumping -> run p evs = p.
Proof.
  intros Hs. induction evs as [|ev evs IH]; [done |].
  unfold run in *. simpl. replace (step p ev) with p; [done |].
  unfold step. by destruct (status p).
Qed.

Lemma step_counts (p : pump) (ev : event) :
  next_calls p = S (length (enqueued p)) ->
  (status p = Pumping -> return_calls p = 0%nat) ->
  (return_calls p <= 1)%nat ->
  next_calls (step p ev) = S (length (enqueued (step p ev))) /\
  (status (step p ev) = Pumping -> return_calls (step p ev) = 0%nat) /\
  (return_calls (step p ev) <= 1)%nat.
Proof.
  intros Hn Hr Hle. unfold step.
  destruct (status p) eqn:Hs;
    [| repeat split; try done; rewrite Hs; discriminate ..].
  specialize (Hr eq_refl). unfold close, leave, fail.
  destruct ev as [c | | e |]; simpl;
    destruct (aborted p); simpl;
    try destruct (choices c) as [|ch rest]; simpl;
    rewrite ?length_app; simpl;
    repeat split; try done; try lia; try discriminate.
Qed.

(** X8: at every moment of the stream's life the number of chunk requests
    made is the number of deltas forwarded plus one: the loop asks for the
    next chunk only after forwarding the previous one, never ahead and
    never twice; and [completion.return()] is called at most once, and
    only when the loop is over. *)
Theorem X8_one_request_per_forwarded_delta (evs : list event) :
  next_calls (run started evs) = S (length (enqueued (run started evs))) /\
  (return_calls (run started evs) <= 1)%nat /\
  (status (run started evs) = Pumping ->
   return_calls (run started evs) = 0%nat).
Proof.
  assert (forall p,
            next_calls p = S (length (enqueued p)) ->
            (status p = Pumping -> return_calls p = 0%nat) ->
            (return_calls p <= 1)%nat ->
            next_calls (run p evs) = S (length (enqueued (run p evs))) /\
            (status (run p evs) = Pumping ->
             return_calls (run p evs) = 0%nat) /\
            (return_calls (run p evs) <= 1)%nat) as Hgen.
  { induction evs as [|ev evs IH]; intros p Hn Hr Hle; [done |].
    destruct (step_counts p ev Hn Hr Hle) as (Hn' & Hr' & Hle').
    apply (IH (step p ev) Hn' Hr' Hle'). }
  destruct (Hgen started) as (Hn & Hr & Hle); simpl; try done; try lia.
Qed.

Lemma run_chunks (cs : list Chunk) (texts : list jstring) (p : pump) :
  status p = Pumping -> aborted p = false ->
  mapM delta_of cs = Some texts ->
  run p (map ChunkArrives cs)
  = mkPump Pumping false (next_calls p + length cs) (return_calls p)
      (enqueued p ++ texts).
Proof.
  revert texts p; induction cs as [|c cs IH]; intros texts p Hs Ha Hm.
  - simpl in Hm. injection Hm as <-. simpl.
    rewrite Nat.add_0_r, app_nil_r. destruct p; simpl in *; congruence.
  - rewrite mapM_Some in Hm. inversion Hm as [|c' t cs' texts' Ht Hrest];
      subst.
    apply mapM_Some in Hrest.
    unfold delta_of in Ht. destruct (choices c) as [|ch rest] eqn:Hc;
      [done |]. simpl in Ht. injection Ht as <-.
    unfold run in *. simpl. unfold step at 2. rewrite Hs, Ha, Hc.
    rewrite (IH texts'); simpl; [| done ..].
    f_equal; [lia |]. by rewrite <- app_assoc.
Qed.

(** X9: when the stream is never cancelled and every chunk has a first
    choice, the deltas forwarded are the texts of the chunks' first
    choices, all of them, in arrival order; one chunk request was made per
    chunk plus the one that found the end; and the stream is closed
    normally without [completion.return()]. *)
Theorem X9_deltas_forwarded_in_order
    (cs : list Chunk) (texts : list jstring) :
  mapM delta_of cs = Some texts ->
  run started (map ChunkArrives cs ++ [CompletionEnds])
  = mkPump StartReturned false (S (length cs)) 0 texts.
Proof.
  intros Hm. rewrite run_app, (run_chunks cs texts started) by done.
  reflexivity.
Qed.

Lemma X9_deltas_forwarded_witness :
  run started
    (map ChunkArrives
       [mkChunk [mkChoice (js "Hel")];
        mkChunk [mkChoice (js "lo"); mkChoice (js "ignored")]]
     ++ [CompletionEnds])
  = mkPump StartReturned false 3 0 [js "Hel"; js "lo"].
Proof.
  apply (X9_deltas_forwarded_in_order
           [mkChunk [mkChoice (js "Hel")];
            mkChunk [mkChoice (js "lo"); mkChoice (js "ignored")]]
           [js "Hel"; js "lo"]).
  reflexivity.
Defined.

(** X10: a chunk without any choice ends the stream: [start] rejects with
    the TypeError of reading [text] of [undefined], [completion.return()]
    is called, the deltas forwarded before stay as they are, and nothing
    that arrives later is forwarded or asked for. *)
Theorem X10_chunk_without_choice_ends_the_stream
    (p : pump) (c : Chunk) (later : list event) :
  status p = Pumping -> aborted p = false -> choices c = [] ->
  run p (ChunkArrives c :: later)
  = mkPump (StartRejected TypeError) false (next_calls p)
      (S (return_calls p)) (enqueued p).
Proof.
  intros Hs Ha Hc. unfold run. simpl. fold (run (step p (ChunkArrives c))
                                                later).
  assert (step p (ChunkArrives c)
          = mkPump (StartRejected TypeError) false (next_calls p)
              (S (return_calls p)) (enqueued p)) as ->.
  { unfold step. rewrite Hs, Ha, Hc. unfold fail, leave. simpl.
    by rewrite Ha. }
  by apply run_settled.
Qed.

Lemma X10_chunk_without_choice_witness :
  run started
    [ChunkArrives (mkChunk []); ChunkArrives (mkChunk [mkChoice (js "x")])]
  = mkPump (StartRejected TypeError) false 1 1 [].
Proof.
  apply (X10_chunk_without_choice_ends_the_stream started (mkChunk [])
           [ChunkArrives (mkChunk [mkChoice (js "x")])]);
    reflexivity.
Defined.
End OpenAIStreamExtra.

(** ** Further properties of the generation *)

Module GenerationExtra.
Import OpenAIStream Generation Observations.

Lemma step_enqueued_grows (p : pump) (ev : event) :
  enqueued p `prefix_of` enqueued (step p ev).
Proof.
  unfold step, close, leave, fail. destruct (status p); [| done ..].
  destruct ev as [c | | e |]; simpl;
    destruct (aborted p); simpl; try done.
  destruct (choices c); simpl; [done |]. by apply prefix_app_r.
Qed.

Lemma run_enqueued_grows (evs : list event) (p : pump) :
  enqueued p `prefix_of` enqueued (run p evs).
Proof.
  revert p; induction evs as [|ev evs IH]; intros p; [done |].
  etrans; [apply (step_enqueued_grows p ev) | apply (IH (step p ev))].
Qed.

(** Once a chunk has arrived, reading the body of the local [Response]
    fails with a TypeError: either a string reaches [decoder.decode], or
    the stream was put in error by a chunk without choice. *)
Lemma read_body_of_completion (env : Env) (c : Completion) :
  chunks c <> [] ->
  read_body env (body_of_completion c) = Thrown TypeError.
Proof.
  intros Hc. destruct c as [[|c1 rest] fl]; [done |]. clear Hc.
  set (tail := map ChunkArrives rest ++
               [match fl with
                | Some e => CompletionFails e
                | None => CompletionEnds
                end]).
  assert (run started (events_of (mkCompletion (c1 :: rest) fl))
          = run (step started (ChunkArrives c1)) tail) as Hrun
    by reflexivity.
  unfold body_of_completion, read_body. cbv zeta. rewrite Hrun.
  destruct (choices c1) as [|ch chs] eqn:Hch.
  - assert (step started (ChunkArrives c1)
            = mkPump (StartRejected TypeError) false 1 1 []) as ->
      by (unfold step; simpl; by rewrite Hch).
    by rewrite OpenAIStreamExtra.run_settled.
  - assert (step started (ChunkArrives c1)
            = mkPump Pumping false 2 0 [text ch]) as ->
      by (unfold step; simpl; by rewrite Hch).
    destruct (run_enqueued_grows tail
                (mkPump Pumping false 2 0 [text ch])) as [k Hk].
    simpl in Hk. by rewrite Hk.
Qed.

(** X11: on the OpenAI-compatible path, as soon as the completion stream
    delivers a chunk the function fails with a TypeError, after its one
    upstream call: the deltas are enqueued as strings, and the reading loop
    hands them to [TextDecoder.decode], which takes bytes. *)
Theorem X11_openai_path_fails_on_first_chunk
    (env : Env) (defaultModel : BackendModel) (randomEndpoint : Endpoint)
    (prompt : jstring) (parameters : option (gmap jstring jsval))
    (c : Completion) :
  is_openai randomEndpoint = true ->
  create_reply env
    (upstream_request defaultModel randomEndpoint
       (newParameters (model_parameters defaultModel) parameters) prompt)
  = Returned c ->
  chunks c <> [] ->
  generateFromDefaultEndpoint env defaultModel randomEndpoint prompt
    parameters []
  = (Thrown TypeError,
     [upstream_request defaultModel randomEndpoint
        (newParameters (model_parameters defaultModel) parameters) prompt]).
Proof.
  intros Hep Hreply Hc.
  unfold generateFromDefaultEndpoint, bind, upstream, lift, ret, throw.
  simpl. rewrite Hep, Hreply. simpl.
  by rewrite (read_body_of_completion env c Hc).
Qed.

Lemma X11_openai_path_witness :
  generateFromDefaultEndpoint
    (example_openai_env
       (mkCompletion [mkChunk [mkChoice (js "Hi")]] None))
    Examples.example_model example_openai (js "Hello") None []
  = (Thrown TypeError,
     [CompletionsCreate (js "sk-key") None (js "m") (js "Hello")
        JUndef (JArr [JStr (js "STOP")]) (JNum (1 # 2))]).
Proof.
  apply (X11_openai_path_fails_on_first_chunk
           (example_openai_env
              (mkCompletion [mkChunk [mkChoice (js "Hi")]] None))
           Examples.example_model example_openai (js "Hello") None
           (mkCompletion [mkChunk [mkChoice (js "Hi")]] None));
    [reflexivity | reflexivity | discriminate].
Defined.

(** X12: on the TGI and SageMaker paths the body sent upstream always
    carries the prompt under [inputs] and [return_full_text: false]: a
    request parameter of either name cannot replace them; every other
    request parameter is sent as given. *)
Theorem X12_request_body_keeps_prompt_and_flag
    (env : Env) (defaultModel : BackendModel) (randomEndpoint : Endpoint)
    (prompt : jstring) (parameters : option (gmap jstring jsval)) :
  is_openai randomEndpoint = false ->
  exists call body,
    (generateFromDefaultEndpoint env defaultModel randomEndpoint prompt
       parameters []).2 = [call] /\
    call_body call = Some body /\
    body !! js "inputs" = Some (JStr prompt) /\
    body !! js "return_full_text" = Some (JBool false) /\
    (forall k v,
       default ∅ parameters !! k = Some v ->
       k <> js "inputs" -> k <> js "return_full_text" ->
       body !! k = Some v).
Proof.
  intros Hep.
  exists (upstream_request defaultModel randomEndpoint
            (newParameters (model_parameters defaultModel) parameters)
            prompt),
         (request_body
            (newParameters (model_parameters defaultModel) parameters)
            prompt).
  split; [apply GenerationProps.generate_calls_once |].
  split; [by destruct randomEndpoint |].
  unfold request_body. split; [apply lookup_insert_eq |].
  split.
  - rewrite lookup_insert_ne by (vm_compute; discriminate).
    rewrite GenerationProps.newParameters_lookup.
    by rewrite bool_decide_eq_true_2.
  - intros k v Hk Hin Hrft.
    rewrite lookup_insert_ne by done.
    rewrite GenerationProps.newParameters_lookup.
    rewrite bool_decide_eq_false_2 by done. by rewrite Hk.
Qed.

Lemma X12_request_body_witness :
  exists call body,
    (generateFromDefaultEndpoint
       (Examples.example_env (Returned (mkResponse 204 None)))
       Examples.example_model Examples.example_tgi (js "Hello")
       (Some {[ js "inputs" := JStr (js "other");
                js "return_full_text" := JBool true ]}) []).2 = [call] /\
    call_body call = Some body /\
    body !! js "inputs" = Some (JStr (js "Hello")) /\
    body !! js "return_full_text" = Some (JBool false).
Proof.
  destruct (X12_request_body_keeps_prompt_and_flag
              (Examples.example_env (Returned (mkResponse 204 None)))
              Examples.example_model Examples.example_tgi (js "Hello")
              (Some {[ js "inputs" := JStr (js "other");
                       js "return_full_text" := JBool true ]})
              eq_refl)
    as (call & body & H1 & H2 & H3 & H4 & _).
  by exists call, body.
Defined.

(** X13: the stop sequences used for trimming are the request's as soon
    as the request has a [stop] key, even one holding [undefined] (which
    then switches the model's stop sequences off), and the model's
    otherwise. *)
Theorem X13_request_stop_replaces_model_stop
    (defaults : gmap jstring jsval)
    (parameters : option (gmap jstring jsval)) :
  stop_sequences (newParameters defaults parameters)
  = match default ∅ parameters !! js "stop" with
    | Some _ => stop_sequences (default ∅ parameters)
    | None => stop_sequences defaults
    end.
Proof.
  unfold stop_sequences at 1. unfold get.
  rewrite GenerationProps.newParameters_lookup.
  rewrite bool_decide_eq_false_2 by (vm_compute; discriminate).
  unfold stop_sequences, get.
  by destruct (default ∅ parameters !! js "stop").
Qed.
End GenerationExtra.

(** ** Further properties of the configuration *)

Module ZodExtra.
Import Zod Models.

Lemma ap_valid_inv {A B} (f : parsed (A -> B)) (x : parsed A) (b : B) :
  f <*> x = Valid b -> exists g a, f = Valid g /\ x = Valid a /\ b = g a.
Proof.
  destruct f as [g| | |], x as [a| | |]; simpl; try discriminate.
  intros [= <-]. by exists g, a.
Qed.

Lemma fmap_valid_inv {A B} (g : A -> B) (r : parsed A) (b : B) :
  fmap g r = Valid b -> exists a, r = Valid a /\ b = g a.
Proof. destruct r; simpl; try discriminate. intros [= <-]. eauto. Qed.

Lemma checked_valid_inv {A} (a b : A) (codes : list issue_code)
    (p : list path_item) :
  checked a codes p = Valid b -> a = b /\ codes = [].
Proof. destruct codes; simpl; [| discriminate]. by intros [= <-]. Qed.

Lemma checked_never_escapes {A} (a : A) (codes : list issue_code)
    (p : list path_item) i :
  checked a codes p <> Escapes i.
Proof. by destruct codes. Qed.

Lemma ap_never_escapes {A B} (f : parsed (A -> B)) (x : parsed A) :
  (forall i, f <> Escapes i) -> (forall i, x <> Escapes i) ->
  forall i, f <*> x <> Escapes i.
Proof.
  intros Hf Hx i. destruct f, x; simpl; try discriminate;
    first [by destruct (Hf issues) | by destruct (Hx issues)
          | by destruct (Hx issues0)].
Qed.

(** Without an escaping error, the issues of the parts add up. *)
Lemma ap_issues {A B} (f : parsed (A -> B)) (x : parsed A) :
  (forall i, f <> Escapes i) -> (forall i, x <> Escapes i) ->
  issues_of (f <*> x) = issues_of f ++ issues_of x.
Proof.
  intros Hf Hx. destruct f, x; simpl; rewrite ?app_nil_r; try done;
    first [by destruct (Hf issues) | by destruct (Hx issues)
          | by destruct (Hx issues0)].
Qed.

Section Schemas.
Variable is_url : jstring -> bool.
Variables HF_ACCESS_TOKEN OPENAI_API_KEY : jstring.

Lemma z_string_valid_inv checks p data s :
  z_string is_url checks p data = Valid s ->
  data = JStr s /\ omap (fun c => string_issue is_url c s) checks = [].
Proof.
  destruct data; simpl; try discriminate.
  intros H. by apply checked_valid_inv in H as [-> ?].
Qed.

Lemma z_string_valid checks p s :
  omap (fun c => string_issue is_url c s) checks = [] ->
  z_string is_url checks p (JStr s) = Valid s.
Proof. intros H. simpl. by rewrite H. Qed.

Lemma z_number_valid_inv checks p data q :
  z_number checks p data = Valid q ->
  data = JNum q /\ omap (fun c => number_issue c q) checks = [].
Proof.
  destruct data; simpl; try discriminate.
  intros H. by apply checked_valid_inv in H as [-> ?].
Qed.

Lemma z_number_valid checks p q :
  omap (fun c => number_issue c q) checks = [] ->
  z_number checks p (JNum q) = Valid q.
Proof. intros H. simpl. by rewrite H. Qed.

Lemma z_string_never_escapes checks : never_escapes (z_string is_url checks).
Proof.
  intros p data i. destruct data; simpl; try discriminate.
  apply checked_never_escapes.
Qed.

Lemma z_number_never_escapes checks : never_escapes (z_number checks).
Proof.
  intros p data i. destruct data; simpl; try discriminate.
  apply checked_never_escapes.
Qed.

Lemma z_literal_never_escapes {A} lit (a : A) :
  never_escapes (z_literal lit a).
Proof.
  intros p data i. destruct data; simpl; try discriminate.
  by case_bool_decide.
Qed.

Lemma z_undefined_never_escapes {A} (a : A) :
  never_escapes (z_undefined a).
Proof. intros p data i. by destruct data. Qed.

Lemma z_optional_never_escapes {A} (s : schema A) :
  never_escapes s -> never_escapes (z_optional s).
Proof.
  intros Hs p data i. unfold z_optional.
  destruct data; try discriminate;
    match goal with
    | |- fmap _ ?r <> _ =>
        let E := fresh in
        destruct r eqn:E; simpl; try discriminate;
        intros [= ->]; by apply Hs in E
    end.
Qed.

Lemma z_default_never_escapes {A} d (s : schema A) :
  never_escapes s -> never_escapes (z_default d s).
Proof. intros Hs p data i. unfold z_default. destruct data; apply Hs. Qed.

Lemma union_from_never_escapes {A} (options : list (schema A)) :
  Forall never_escapes options ->
  forall dirty, never_escapes (union_from dirty options).
Proof.
  induction 1 as [|s options Hs _ IH]; intros dirty p data i; simpl.
  - by destruct dirty.
  - destruct (s p data) eqn:E; try discriminate.
    + apply IH.
    + apply IH.
    + by apply Hs in E.
Qed.

Lemma z_union_never_escapes {A} (options : list (schema A)) :
  Forall never_escapes options -> never_escapes (z_union options).
Proof. intros H. by apply union_from_never_escapes. Qed.

Lemma array_items_never_escapes {A} (s : schema A) p items :
  never_escapes s -> forall k i, array_items s p k items <> Escapes i.
Proof.
  intros Hs. induction items as [|x rest IH]; intros k i; [done |].
  change (array_items s p k (x :: rest))
    with (Valid cons <*> s (p ++ [Index k]) x
          <*> array_items s p (S k) rest).
  apply ap_never_escapes; [apply ap_never_escapes |];
    first [done | intros j; apply Hs | apply IH].
Qed.

Lemma z_array_never_escapes {A} (s : schema A) :
  never_escapes s -> never_escapes (z_array s).
Proof.
  intros Hs p data i. destruct data; simpl; try discriminate.
  by apply array_items_never_escapes.
Qed.

Lemma field_never_escapes {A : Type} o p key (s : schema A) :
  never_escapes s -> forall i, field o p key s <> Escapes i.
Proof. intros Hs i. apply Hs. Qed.

Lemma union_from_valid_inv {A} (options : list (schema A)) dirty p data a :
  union_from dirty options p data = Valid a ->
  exists s, s ∈ options /\ s p data = Valid a.
Proof.
  revert dirty; induction options as [|s options IH]; intros dirty; simpl.
  - by destruct dirty.
  - destruct (s p data) eqn:E; try discriminate.
    + intros [= <-]. exists s. split; [left | done].
    + intros H. apply IH in H as (s' & Hin & Hs').
      exists s'. split; [by right | done].
    + intros H. apply IH in H as (s' & Hin & Hs').
      exists s'. split; [by right | done].
Qed.

Lemma z_default_valid_inv {A} d (s : schema A) p data a :
  z_default d s p data = Valid a ->
  s p (match data with JUndef => d | _ => data end) = Valid a.
Proof. by destruct data. Qed.

Lemma z_optional_valid_inv {A} (s : schema A) p data r :
  z_optional s p data = Valid r ->
  (data = JUndef /\ r = None) \/
  (data <> JUndef /\ exists a, r = Some a /\ s p data = Valid a).
Proof.
  unfold z_optional. destruct data; [intros [= <-]; by left | ..];
    intros H; apply fmap_valid_inv in H as (a & Ha & ->);
    right; (split; [discriminate | eauto]).
Qed.

Lemma weight_valid_inv p data w :
  weight_schema p data = Valid w ->
  is_int w = true /\ Qle_bool w 0 = false /\
  (data = JNum w \/ (data = JUndef /\ w = 1%Q)).
Proof.
  intros H. apply z_default_valid_inv, z_number_valid_inv in H as [Hd Hc].
  simpl in Hc.
  destruct (is_int w) eqn:Hint; [| discriminate].
  destruct (Qle_bool w 0) eqn:Hpos; [discriminate |].
  repeat split. destruct data; try discriminate.
  - injection Hd as <-. by right.
  - by left.
Qed.

Lemma weight_valid p w :
  is_int w = true -> Qle_bool w 0 = false ->
  weight_schema p (JNum w) = Valid w.
Proof.
  intros Hint Hpos. unfold weight_schema, z_default.
  apply z_number_valid. simpl. by rewrite Hint, Hpos.
Qed.

Ltac peel H :=
  lazymatch type of H with
  | _ <*> _ = Valid _ =>
      let g := fresh "g" in
      let a := fresh "a" in
      let Ha := fresh "Hfield" in
      apply ap_valid_inv in H as (g & a & H & Ha & ->); peel H
  | Valid _ = Valid _ => injection H as <-
  end.

Ltac lookups :=
  unfold field, get, opt_prop;
  repeat first
    [ rewrite lookup_insert_eq
    | rewrite lookup_insert_ne
        by (let HH := fresh in intros HH; vm_compute in HH;
            discriminate HH)
    | rewrite lookup_empty ];
  cbn [default from_option].

Lemma sagemaker_valid_inv p data e :
  sagemakerEndpoint is_url p data = Valid e ->
  exists u ak sk st w,
    e = SageMaker u ak sk st w /\
    is_url u = true /\ ak <> [] /\ sk <> [] /\
    is_int w = true /\ Qle_bool w 0 = false.
Proof.
  destruct data; try discriminate. unfold sagemakerEndpoint, z_object.
  intros H. peel H.
  apply weight_valid_inv in Hfield as (Hint & Hpos & _).
  apply z_string_valid_inv in Hfield3 as [_ Hu].
  apply z_string_valid_inv in Hfield2 as [_ Hak].
  apply z_string_valid_inv in Hfield1 as [_ Hsk].
  simpl in Hu, Hak, Hsk.
  exists a3, a2, a1, a0, a. repeat split; try done.
  - by destruct (is_url a3).
  - by destruct a2.
  - by destruct a1.
Qed.

Lemma z_string_url_valid p u :
  is_url u = true -> z_string is_url [url] p (JStr u) = Valid u.
Proof. intros H. apply z_string_valid. simpl. by rewrite H. Qed.

Lemma z_string_min1_valid p t :
  t <> [] -> z_string is_url [min1] p (JStr t) = Valid t.
Proof. intros H. apply z_string_valid. by destruct t. Qed.

Lemma z_literal_same {A} lit (a : A) p :
  z_literal lit a p (JStr (js lit)) = Valid a.
Proof. simpl. by rewrite bool_decide_eq_true_2. Qed.

Ltac fields :=
  unfold Datatypes.id;
  rewrite ?z_literal_same, ?z_string_url_valid, ?z_string_min1_valid,
    ?weight_valid by done.

Lemma sagemaker_reparse u ak sk st w :
  is_url u = true -> ak <> [] -> sk <> [] ->
  is_int w = true -> Qle_bool w 0 = false ->
  parse_or_throw (sagemakerEndpoint is_url)
    (endpoint_data (SageMaker u ak sk st w))
  = Valid (SageMaker u ak sk st w).
Proof.
  intros Hu Hak Hsk Hint Hpos.
  unfold parse_or_throw, sagemakerEndpoint, z_object, endpoint_data.
  destruct st as [st|]; lookups; fields; reflexivity.
Qed.

Lemma tgi_valid_inv p data e :
  tgiEndpoint is_url HF_ACCESS_TOKEN p data = Valid e ->
  exists h u au w,
    e = TGI h u au w /\
    is_url u = true /\ au <> [] /\
    is_int w = true /\ Qle_bool w 0 = false.
Proof.
  destruct data; try discriminate. unfold tgiEndpoint, z_object.
  intros H. peel H.
  apply weight_valid_inv in Hfield as (Hint & Hpos & _).
  apply z_default_valid_inv, z_string_valid_inv in Hfield0 as [_ Hau].
  apply z_string_valid_inv in Hfield1 as [_ Hu].
  simpl in Hu, Hau.
  exists a2, a1, a0, a. repeat split; try done.
  - by destruct (is_url a1).
  - by destruct a0.
Qed.

Lemma tgi_reparse h u au w :
  is_url u = true -> au <> [] ->
  is_int w = true -> Qle_bool w 0 = false ->
  parse_or_throw (tgiEndpoint is_url HF_ACCESS_TOKEN)
    (endpoint_data (TGI h u au w))
  = Valid (TGI h u au w).
Proof.
  intros Hu Hau Hint Hpos.
  unfold parse_or_throw, tgiEndpoint, z_object, endpoint_data.
  destruct h; lookups; fields; unfold z_default;
    rewrite ?z_string_min1_valid by done; reflexivity.
Qed.

Lemma openai_valid_inv p data e :
  openAICompatibleEndpoint is_url OPENAI_API_KEY p data = Valid e ->
  exists b k t w,
    e = OpenAICompatible b (Some k) t w /\
    is_url b = true /\ is_int w = true /\ Qle_bool w 0 = false.
Proof.
  destruct data; try discriminate.
  unfold openAICompatibleEndpoint, z_object.
  intros H. peel H.
  apply weight_valid_inv in Hfield as (Hint & Hpos & _).
  apply z_default_valid_inv, z_string_valid_inv in Hfield2 as [_ Hb].
  apply z_default_valid_inv, z_optional_valid_inv in Hfield1
    as [[Hd _] | (_ & k & -> & _)].
  { unfold field in Hd. by destruct (get props "apiKey"). }
  simpl in Hb.
  exists a2, k, a0, a. repeat split; try done.
  by destruct (is_url a2).
Qed.

Lemma openai_reparse b k t w :
  is_url b = true -> is_int w = true -> Qle_bool w 0 = false ->
  parse_or_throw (openAICompatibleEndpoint is_url OPENAI_API_KEY)
    (endpoint_data (OpenAICompatible b (Some k) t w))
  = Valid (OpenAICompatible b (Some k) t w).
Proof.
  intros Hb Hint Hpos.
  unfold parse_or_throw, openAICompatibleEndpoint, z_object,
    endpoint_data.
  lookups; fields; unfold z_default;
    rewrite ?z_string_url_valid by done.
  by destruct t.
Qed.

Lemma endpoint_valid_inv p data e :
  endpoint is_url HF_ACCESS_TOKEN OPENAI_API_KEY p data = Valid e ->
  openAICompatibleEndpoint is_url OPENAI_API_KEY p data = Valid e \/
  sagemakerEndpoint is_url p data = Valid e \/
  tgiEndpoint is_url HF_ACCESS_TOKEN p data = Valid e.
Proof.
  intros H. apply union_from_valid_inv in H as (s & Hin & Hs).
  repeat (apply elem_of_cons in Hin as [-> | Hin]); auto.
  by apply elem_of_nil in Hin.
Qed.

(** The second parse inside the transform always succeeds and gives the
    endpoint back. *)
Lemma combinedEndpoint_is_endpoint p data :
  combinedEndpoint is_url HF_ACCESS_TOKEN OPENAI_API_KEY p data
  = endpoint is_url HF_ACCESS_TOKEN OPENAI_API_KEY p data.
Proof.
  unfold combinedEndpoint.
  destruct (endpoint _ _ _ p data) as [e| | |] eqn:E; try done.
  apply endpoint_valid_inv in E as [E | [E | E]].
  - apply openai_valid_inv in E as (b & k & t & w & -> & ? & ? & ?).
    by apply openai_reparse.
  - apply sagemaker_valid_inv in E
      as (u & ak & sk & st & w & -> & ? & ? & ? & ? & ?).
    by apply sagemaker_reparse.
  - apply tgi_valid_inv in E as (h & u & au & w & -> & ? & ? & ? & ?).
    by apply tgi_reparse.
Qed.

Lemma z_object_never_escapes {A : Type}
    (shape : gmap jstring jsval -> list path_item -> parsed A) :
  (forall o p i, shape o p <> Escapes i) -> never_escapes (z_object shape).
Proof.
  intros Hs p data i. destruct data; simpl; try discriminate. apply Hs.
Qed.

Ltac no_escape :=
  repeat first
    [ done
    | apply z_object_never_escapes; intros ? ? ?
    | apply ap_never_escapes; [| intros ?]
    | apply field_never_escapes
    | apply z_optional_never_escapes
    | apply z_default_never_escapes
    | apply z_array_never_escapes
    | apply z_string_never_escapes
    | apply z_number_never_escapes
    | apply z_literal_never_escapes
    | apply z_undefined_never_escapes
    | apply z_union_never_escapes; repeat constructor ].

Lemma openai_never_escapes :
  never_escapes (openAICompatibleEndpoint is_url OPENAI_API_KEY).
Proof. unfold openAICompatibleEndpoint. no_escape. Qed.

Lemma sagemaker_never_escapes : never_escapes (sagemakerEndpoint is_url).
Proof. unfold sagemakerEndpoint. no_escape. Qed.

Lemma tgi_never_escapes :
  never_escapes (tgiEndpoint is_url HF_ACCESS_TOKEN).
Proof. unfold tgiEndpoint. no_escape. Qed.

Lemma endpoint_never_escapes :
  never_escapes (endpoint is_url HF_ACCESS_TOKEN OPENAI_API_KEY).
Proof.
  apply z_union_never_escapes.
  repeat constructor;
    [apply openai_never_escapes | apply sagemaker_never_escapes
    | apply tgi_never_escapes].
Qed.

Lemma combinedEndpoint_never_escapes :
  never_escapes (combinedEndpoint is_url HF_ACCESS_TOKEN OPENAI_API_KEY).
Proof.
  intros p data i. rewrite combinedEndpoint_is_endpoint.
  apply endpoint_never_escapes.
Qed.

(** X14: the second [parse] that the endpoint transform runs on the
    already parsed endpoint always succeeds and returns that endpoint: the
    transform changes nothing, and no ZodError ever escapes from it. *)
Theorem X14_endpoint_transform_changes_nothing p data :
  combinedEndpoint is_url HF_ACCESS_TOKEN OPENAI_API_KEY p data
  = endpoint is_url HF_ACCESS_TOKEN OPENAI_API_KEY p data /\
  (forall i,
     combinedEndpoint is_url HF_ACCESS_TOKEN OPENAI_API_KEY p data
     <> Escapes i).
Proof.
  split; [apply combinedEndpoint_is_endpoint |].
  intros i. apply combinedEndpoint_never_escapes.
Qed.

Lemma is_int_integer (q : Q) :
  is_int q = true -> exists n : Z, (q == inject_Z n)%Q.
Proof.
  unfold is_int. intros H. apply Z.eqb_eq in H.
  exists (Z.quot (Qnum q) (Zpos (Qden q))).
  unfold Qeq, inject_Z. simpl.
  pose proof (Z.quot_rem' (Qnum q) (Zpos (Qden q))) as Hqr.
  rewrite H in Hqr. lia.
Qed.

Lemma positive_check (q : Q) : Qle_bool q 0 = false -> (0 < q)%Q.
Proof.
  intros H. apply Qnot_le_lt. intros Hle.
  apply Qle_bool_iff in Hle. congruence.
Qed.

Lemma combinedEndpoint_valid_inv p data e :
  combinedEndpoint is_url HF_ACCESS_TOKEN OPENAI_API_KEY p data = Valid e ->
  is_url (endpoint_url e) = true /\
  Forall (fun secret => secret <> []) (endpoint_secrets e) /\
  is_int (endpoint_weight e) = true /\
  Qle_bool (endpoint_weight e) 0 = false.
Proof.
  rewrite combinedEndpoint_is_endpoint. intros E.
  apply endpoint_valid_inv in E as [E | [E | E]].
  - apply openai_valid_inv in E as (b & k & t & w & -> & ? & ? & ?).
    simpl. repeat split; try done.
  - apply sagemaker_valid_inv in E
      as (u & ak & sk & st & w & -> & ? & ? & ? & ? & ?).
    simpl. repeat split; try done. by repeat constructor.
  - apply tgi_valid_inv in E as (h & u & au & w & -> & ? & ? & ? & ?).
    simpl. repeat split; try done. by repeat constructor.
Qed.

(** X15: whatever the configuration says, an endpoint that came through
    parsing has a positive integer weight, an address that is a URL, and
    no empty secret (SageMaker access key and secret key, TGI
    authorization). *)
Theorem X15_parsed_endpoint_is_well_formed p data e :
  combinedEndpoint is_url HF_ACCESS_TOKEN OPENAI_API_KEY p data = Valid e ->
  (0 < endpoint_weight e)%Q /\
  (exists n : Z, (endpoint_weight e == inject_Z n)%Q) /\
  is_url (endpoint_url e) = true /\
  Forall (fun secret => secret <> []) (endpoint_secrets e).
Proof.
  intros H. apply combinedEndpoint_valid_inv in H as (Hu & Hs & Hi & Hp).
  repeat split; try done.
  - by apply positive_check.
  - by apply is_int_integer.
Qed.

Lemma ap_invalid_l {A B} (x : parsed A) i :
  (forall j, x <> Escapes j) ->
  Invalid (A:=A -> B) i <*> x = Invalid (i ++ issues_of x).
Proof.
  intros Hx. destruct x; simpl; rewrite ?app_nil_r; try done.
  by destruct (Hx issues).
Qed.

Lemma ap_valid_invalid {A B} (g : A -> B) i :
  Valid g <*> Invalid i = Invalid i.
Proof. done. Qed.

(** An object whose [host] is not the literal of a variant is invalid
    for that variant. *)
Lemma openai_wrong_host o p :
  get o "host" <> JStr (js "openai-compatible") ->
  exists i,
    openAICompatibleEndpoint is_url OPENAI_API_KEY p (JObj o) = Invalid i.
Proof.
  intros Hh. unfold openAICompatibleEndpoint, z_object.
  assert (exists i, field o p "host" (z_literal "openai-compatible" ())
                    = Invalid i) as [i Hi].
  { unfold field, z_literal. destruct (get o "host"); eauto.
    case_bool_decide; [congruence | eauto]. }
  rewrite Hi, ap_valid_invalid.
  rewrite !ap_invalid_l by no_escape. eauto.
Qed.

Lemma sagemaker_wrong_host o p :
  get o "host" <> JStr (js "sagemaker") ->
  exists i, sagemakerEndpoint is_url p (JObj o) = Invalid i.
Proof.
  intros Hh. unfold sagemakerEndpoint, z_object.
  assert (exists i, field o p "host" (z_literal "sagemaker" ())
                    = Invalid i) as [i Hi].
  { unfold field, z_literal. destruct (get o "host"); eauto.
    case_bool_decide; [congruence | eauto]. }
  rewrite Hi, ap_valid_invalid.
  rewrite !ap_invalid_l by no_escape. eauto.
Qed.

Lemma tgi_wrong_host o p :
  get o "host" <> JStr (js "tgi") -> get o "host" <> JUndef ->
  exists i, tgiEndpoint is_url HF_ACCESS_TOKEN p (JObj o) = Invalid i.
Proof.
  intros Hh Hu. unfold tgiEndpoint, z_object.
  assert (exists i, field o p "host"
                      (z_union [z_literal "tgi" true; z_undefined false])
                    = Invalid i) as [i Hi].
  { unfold field, z_union, union_from, z_literal, z_undefined.
    destruct (get o "host"); eauto; try done.
    case_bool_decide; [congruence | eauto]. }
  rewrite Hi, ap_valid_invalid.
  rewrite !ap_invalid_l by no_escape. eauto.
Qed.

(** X16: [host] selects the variant, and TGI is the default: an endpoint
    object without [host], [authorization] and [weight] whose [url] is a
    URL is a TGI endpoint of weight 1 that authenticates with the
    Hugging Face token of the environment. *)
Theorem X16_endpoint_without_host_is_tgi o p u :
  o !! js "host" = None ->
  o !! js "url" = Some (JStr u) -> is_url u = true ->
  o !! js "authorization" = None ->
  o !! js "weight" = None ->
  combinedEndpoint is_url HF_ACCESS_TOKEN OPENAI_API_KEY p (JObj o)
  = Valid (TGI false u (js "Bearer " ++ HF_ACCESS_TOKEN) 1).
Proof.
  intros Hhost Hurl Hu Hauth Hweight.
  rewrite combinedEndpoint_is_endpoint.
  assert (get o "host" = JUndef) as Hh by (unfold get; by rewrite Hhost).
  destruct (openai_wrong_host o p) as [i1 H1]; [by rewrite Hh |].
  destruct (sagemaker_wrong_host o p) as [i2 H2]; [by rewrite Hh |].
  unfold endpoint, z_union, union_from. rewrite H1, H2.
  unfold tgiEndpoint, z_object, field, get.
  rewrite Hhost, Hurl, Hauth, Hweight. simpl. by rewrite Hu.
Qed.

(** X17: an endpoint object whose [host] is anything but ["tgi"],
    ["sagemaker"], ["openai-compatible"] or absent is rejected: none of
    the three variants takes it. *)
Theorem X17_unknown_host_is_rejected o p e :
  get o "host" <> JUndef ->
  get o "host" <> JStr (js "tgi") ->
  get o "host" <> JStr (js "sagemaker") ->
  get o "host" <> JStr (js "openai-compatible") ->
  combinedEndpoint is_url HF_ACCESS_TOKEN OPENAI_API_KEY p (JObj o)
  <> Valid e.
Proof.
  intros Hu Ht Hs Ho. rewrite combinedEndpoint_is_endpoint. intros E.
  destruct (openai_wrong_host o p Ho) as [i1 H1].
  destruct (sagemaker_wrong_host o p Hs) as [i2 H2].
  destruct (tgi_wrong_host o p Ht Hu) as [i3 H3].
  apply endpoint_valid_inv in E as [E | [E | E]]; congruence.
Qed.

Lemma promptExample_never_escapes : never_escapes (promptExample is_url).
Proof. unfold promptExample. no_escape. Qed.

Lemma parametersConfig_never_escapes :
  never_escapes (parametersConfig is_url).
Proof. unfold parametersConfig. no_escape. Qed.

Lemma modelConfig_never_escapes :
  never_escapes (modelConfig is_url HF_ACCESS_TOKEN OPENAI_API_KEY).
Proof.
  unfold modelConfig.
  repeat first
    [ done
    | apply promptExample_never_escapes
    | apply combinedEndpoint_never_escapes
    | apply parametersConfig_never_escapes
    | apply z_object_never_escapes; intros ? ? ?
    | apply ap_never_escapes; [| intros ?]
    | apply field_never_escapes
    | apply z_optional_never_escapes
    | apply z_default_never_escapes
    | apply z_array_never_escapes
    | apply z_string_never_escapes
    | apply promptExample_never_escapes
    | apply combinedEndpoint_never_escapes
    | apply z_number_never_escapes ].
Qed.

Lemma in_issues_ap_l {A B} (f : parsed (A -> B)) (x : parsed A) i :
  (forall j, f <> Escapes j) -> (forall j, x <> Escapes j) ->
  i ∈ issues_of f -> i ∈ issues_of (f <*> x).
Proof.
  intros Hf Hx Hi. rewrite ap_issues by done.
  apply elem_of_app. by left.
Qed.

Lemma in_issues_ap_r {A B} (f : parsed (A -> B)) (x : parsed A) i :
  (forall j, f <> Escapes j) -> (forall j, x <> Escapes j) ->
  i ∈ issues_of x -> i ∈ issues_of (f <*> x).
Proof.
  intros Hf Hx Hi. rewrite ap_issues by done.
  apply elem_of_app. by right.
Qed.

Ltac model_no_escape :=
  repeat first
    [ done
    | apply promptExample_never_escapes
    | apply combinedEndpoint_never_escapes
    | apply parametersConfig_never_escapes
    | apply ap_never_escapes; [| intros ?]
    | apply field_never_escapes
    | apply z_optional_never_escapes
    | apply z_default_never_escapes
    | apply z_array_never_escapes
    | apply z_string_never_escapes
    | apply z_number_never_escapes ].

(** The [name] field decides whether a model object is valid at all, and
    its issues are reported. *)
Lemma modelConfig_name_field o r :
  modelConfig is_url HF_ACCESS_TOKEN OPENAI_API_KEY [] (JObj o) = r ->
  (forall m, r = Valid m ->
     z_string is_url [min1] [Key (js "name")] (get o "name")
     = Valid (name m)) /\
  (forall i,
     i ∈ issues_of (z_string is_url [min1] [Key (js "name")]
                      (get o "name")) ->
     i ∈ issues_of r).
Proof.
  intros <-. unfold modelConfig, z_object. split.
  - intros m H. peel H. exact Hfield16.
  - intros i Hi.
    do 17 (apply in_issues_ap_l; [model_no_escape | model_no_escape |]).
    apply in_issues_ap_r; [model_no_escape | model_no_escape |].
    exact Hi.
Qed.

(** X18: a model must have a name. An object without [name] fails to
    parse with an [invalid_type] issue at [name], and one whose [name] is
    the empty string fails with a [too_small] issue at [name]; whatever
    else the object holds. *)
Theorem X18_model_without_name_is_rejected o :
  (o !! js "name" = None ->
   exists issues,
     parse (modelConfig is_url HF_ACCESS_TOKEN OPENAI_API_KEY) (JObj o)
     = inr issues /\
     mkIssue invalid_type [Key (js "name")] ∈ issues) /\
  (o !! js "name" = Some (JStr []) ->
   exists issues,
     parse (modelConfig is_url HF_ACCESS_TOKEN OPENAI_API_KEY) (JObj o)
     = inr issues /\
     mkIssue too_small [Key (js "name")] ∈ issues).
Proof.
  destruct (modelConfig_name_field o _ eq_refl) as [Hvalid Hissues].
  pose proof (modelConfig_never_escapes [] (JObj o)) as Hesc.
  unfold parse.
  remember (modelConfig is_url HF_ACCESS_TOKEN OPENAI_API_KEY []
              (JObj o)) as r eqn:Hr.
  clear Hr. unfold get in Hvalid, Hissues.
  split; intros Hname; rewrite Hname in Hvalid, Hissues;
    simpl in Hvalid, Hissues;
    destruct r as [m|i|i|i];
    try (by destruct (Hesc i));
    try (specialize (Hvalid m eq_refl); discriminate);
    (eexists; split; [reflexivity |]; apply Hissues; by left).
Qed.

Lemma array_items_valid_inv {A} (s : schema A) p items :
  forall k0 l,
    array_items s p k0 items = Valid l ->
    length l = length items /\
    (forall k a, l !! k = Some a ->
       exists item,
         items !! k = Some item /\
         s (p ++ [Index (k0 + k)]) item = Valid a).
Proof.
  induction items as [|x rest IH]; intros k0 l.
  - intros [= <-]. split; [done |]. intros k a Hk. by destruct k.
  - change (array_items s p k0 (x :: rest))
      with (Valid cons <*> s (p ++ [Index k0]) x
            <*> array_items s p (S k0) rest).
    intros H. peel H. apply IH in Hfield as [Hlen Hitems].
    split; [simpl; by rewrite Hlen |].
    intros [|k] b Hk; simpl in Hk.
    + injection Hk as <-. exists x. by rewrite Nat.add_0_r.
    + apply Hitems in Hk as (item & Hitem & Hs).
      exists item. split; [done |].
      by replace (k0 + S k)%nat with (S k0 + k)%nat by lia.
Qed.

Lemma nmin_check (m q : Q) :
  number_issue (nmin m) q = None -> (m <= q)%Q.
Proof.
  simpl. destruct (Qle_bool m q) eqn:E; [| discriminate].
  intros _. by apply Qle_bool_iff.
Qed.

Lemma nmax_check (m q : Q) :
  number_issue (nmax m) q = None -> (q <= m)%Q.
Proof.
  simpl. destruct (Qle_bool q m) eqn:E; [| discriminate].
  intros _. by apply Qle_bool_iff.
Qed.

Lemma positive_number_check (q : Q) :
  number_issue positive q = None -> (0 < q)%Q.
Proof.
  simpl. destruct (Qle_bool q 0) eqn:E; [discriminate |].
  intros _. by apply positive_check.
Qed.

Lemma int_check (q : Q) :
  number_issue int q = None -> exists n : Z, (q == inject_Z n)%Q.
Proof.
  simpl. destruct (is_int q) eqn:E; [| discriminate].
  intros _. by apply is_int_integer.
Qed.

Lemma omap_two_nil {A B} (f : A -> option B) (a b : A) :
  omap f [a; b] = [] -> f a = None /\ f b = None.
Proof. simpl. destruct (f a); [done |]. by destruct (f b). Qed.

Lemma omap_one_nil {A B} (f : A -> option B) (a : A) :
  omap f [a] = [] -> f a = None.
Proof. simpl. by destruct (f a). Qed.

Lemma optional_number_valid_inv checks p data r q :
  z_optional (z_number checks) p data = Valid r -> r = Some q ->
  omap (fun c => number_issue c q) checks = [].
Proof.
  intros H ->. apply z_optional_valid_inv in H
    as [[_ ?] | (_ & a & [= <-] & H)]; [done |].
  by apply z_number_valid_inv in H as [_ ?].
Qed.

(** X19: the generation parameters of a parsed model are within their
    ranges: temperature between 0 and 1, [truncate] and
    [max_new_tokens] positive integers, [top_p] and [top_k] positive
    and [repetition_penalty] between -2 and 2 when they are given. *)
Theorem X19_parsed_parameters_are_in_range p data c :
  parametersConfig is_url p data = Valid c ->
  (0 <= temperature c <= 1)%Q /\
  (0 < truncate c)%Q /\ (exists n : Z, (truncate c == inject_Z n)%Q) /\
  (0 < max_new_tokens c)%Q /\
  (exists n : Z, (max_new_tokens c == inject_Z n)%Q) /\
  (forall q, top_p c = Some q -> (0 < q)%Q) /\
  (forall q, top_k c = Some q -> (0 < q)%Q) /\
  (forall q, repetition_penalty c = Some q -> (-2 <= q <= 2)%Q).
Proof.
  destruct data; try discriminate. unfold parametersConfig, z_object.
  intros H. peel H. simpl.
  apply z_number_valid_inv in Hfield6 as [_ Ht].
  apply omap_two_nil in Ht as [Ht0 Ht1].
  apply z_number_valid_inv in Hfield5 as [_ Htr].
  apply omap_two_nil in Htr as [Htr0 Htr1].
  apply z_number_valid_inv in Hfield4 as [_ Hmx].
  apply omap_two_nil in Hmx as [Hmx0 Hmx1].
  repeat split.
  - by apply nmin_check.
  - by apply nmax_check.
  - by apply positive_number_check.
  - by apply int_check.
  - by apply positive_number_check.
  - by apply int_check.
  - intros q Hq.
    apply positive_number_check, omap_one_nil,
      (optional_number_valid_inv _ _ _ _ _ Hfield2 Hq).
  - intros q Hq.
    apply positive_number_check, omap_one_nil,
      (optional_number_valid_inv _ _ _ _ _ Hfield1 Hq).
  - apply (nmin_check (-2)).
    by apply (omap_two_nil _ _ _
                (optional_number_valid_inv _ _ _ _ _ Hfield0 H)).
  - apply (nmax_check 2).
    by apply (omap_two_nil _ _ _
                (optional_number_valid_inv _ _ _ _ _ Hfield0 H)).
Qed.
End Schemas.
End ZodExtra.

(** ** Further properties of what [models.ts] exports *)

Module ModelsExtra.
Import Zod Models.

Ltac peel H :=
  lazymatch type of H with
  | _ <*> _ = Valid _ =>
      let g := fresh "g" in
      let a := fresh "a" in
      let Ha := fresh "Hfield" in
      apply ZodExtra.ap_valid_inv in H as (g & a & H & Ha & ->); peel H
  | Valid _ = Valid _ => injection H as <-
  end.

Lemma opt_or_else_nonempty (a : option jstring) (b : jstring) :
  b <> [] -> opt_or_else a b <> [].
Proof. intros Hb. by destruct a as [[|c r]|]. Qed.

Lemma foldr_delete_lookup_Some (keys : list string)
    (o : gmap jstring jsval) (k : jstring) (v : jsval) :
  foldr (fun key => delete (js key)) o keys !! k = Some v <->
  o !! k = Some v /\ k ∉ map js keys.
Proof.
  induction keys as [|key keys IH]; simpl.
  - split; [intros Hk; split; [done | apply not_elem_of_nil] |].
    by intros [Hk _].
  - rewrite lookup_delete_Some, IH, not_elem_of_cons. split.
    + intros (Hne & Hk & Hnot). split; [done |]. split; [congruence | done].
    + intros (Hk & Hne & Hnot). split; [congruence |]. by split.
Qed.

(** What [.passthrough()] keeps: the keys outside the shape, except
    [__proto__], that hold a value. *)
Lemma passthrough_lookup_Some (keys : list string)
    (o : gmap jstring jsval) (k : jstring) (v : jsval) :
  passthrough keys o !! k = Some v <->
  o !! k = Some v /\ v <> JUndef /\ k <> js "__proto__" /\
  k ∉ map js keys.
Proof.
  unfold passthrough.
  rewrite map_lookup_filter_Some, lookup_delete_Some,
    foldr_delete_lookup_Some. split.
  - intros [(Hp & Hk & Hnot) Hu]. simpl in Hu.
    split; [done |]. split; [by intros -> |]. split; [congruence | done].
  - intros (Hk & Hv & Hp & Hnot).
    split; [split; [congruence | by split] |]. simpl. by destruct v.
Qed.

Section Exports.
Variable is_url : jstring -> bool.
Variables HF_ACCESS_TOKEN OPENAI_API_KEY : jstring.
Variables MODELS OLD_MODELS TASK_MODEL : jstring.
Variable JSON_parse : jstring -> option jsval.
Variable fetch_text : jstring -> option jstring.
Variable Render : Type.
Variable compileTemplate : jstring -> ModelConfig -> Render.

Local Abbreviation processModel :=
  (processModel fetch_text Render compileTemplate).
Local Abbreviation process_all :=
  (process_all fetch_text Render compileTemplate).
Local Abbreviation the_modelConfig :=
  (modelConfig is_url HF_ACCESS_TOKEN OPENAI_API_KEY).

Lemma parsed_name_nonempty p data m :
  the_modelConfig p data = Valid m -> name m <> [].
Proof.
  destruct data; try discriminate. unfold modelConfig, z_object.
  intros H. peel H.
  apply ZodExtra.z_string_valid_inv in Hfield16 as [_ Hn].
  simpl. intros Heq. rewrite Heq in Hn. discriminate Hn.
Qed.

Lemma processModel_fields m pm :
  processModel m = Loaded pm ->
  config pm = m /\
  pm_id pm = opt_or_else (id m) (name m) /\
  pm_displayName pm = opt_or_else (displayName m) (name m).
Proof.
  unfold Models.processModel.
  destruct (prepromptUrl m) as [[|c r]|];
    try destruct (fetch_text (c :: r)); try discriminate;
    by intros [= <-].
Qed.

(** X20: every model that was parsed and processed has a non-empty
    [name], [id] and [displayName]: [id] and [displayName] are the ones
    given when they are given and not empty, and the name otherwise. *)
Theorem X20_processed_model_is_identified p data m pm :
  the_modelConfig p data = Valid m ->
  processModel m = Loaded pm ->
  name (config pm) <> [] /\ pm_id pm <> [] /\ pm_displayName pm <> [] /\
  (forall i, id m = Some i -> i <> [] -> pm_id pm = i) /\
  (id m = None \/ id m = Some [] -> pm_id pm = name m).
Proof.
  intros Hm Hpm. apply parsed_name_nonempty in Hm.
  apply processModel_fields in Hpm as (-> & -> & ->).
  repeat split; try done; try by apply opt_or_else_nonempty.
  - intros i -> Hi. by destruct i.
  - by intros [-> | ->].
Qed.

Lemma process_all_loaded ms pms :
  process_all ms = Loaded pms ->
  Forall2 (fun m pm => processModel m = Loaded pm) ms pms.
Proof.
  revert pms; induction ms as [|m ms IH]; intros pms; simpl.
  - intros [= <-]. constructor.
  - destruct (processModel m) as [pm|] eqn:Hpm; [| discriminate].
    destruct (process_all ms) as [rest|]; [| discriminate].
    intros [= <-]. constructor; [done | by apply IH].
Qed.

Lemma process_all_failed ms m why :
  m ∈ ms -> processModel m = Failed why ->
  process_all ms = Failed PrepromptUnavailable.
Proof.
  induction 1 as [m ms | m m' ms Hin IH]; intros Hf; simpl.
  - by rewrite Hf.
  - rewrite (IH Hf). by destruct (processModel m').
Qed.

Local Abbreviation the_models :=
  (models is_url HF_ACCESS_TOKEN OPENAI_API_KEY MODELS JSON_parse
     fetch_text Render compileTemplate).

(** X21: when [models] loads, it has one processed model for each
    element of the [MODELS] array, in the order of the array: the k-th
    model is the k-th element, parsed and then processed; and
    [defaultModel] is the first of them. *)
Theorem X21_models_follow_the_array pms :
  the_models = Loaded pms ->
  exists items,
    JSON_parse MODELS = Some (JArr items) /\
    length pms = length items /\
    defaultModel pms = pms !! 0%nat /\
    (forall k pm, pms !! k = Some pm ->
       exists item,
         items !! k = Some item /\
         the_modelConfig [Index k] item = Valid (config pm) /\
         processModel (config pm) = Loaded pm).
Proof.
  unfold models, modelsRaw, parse.
  destruct (JSON_parse MODELS) as [data|]; [| discriminate].
  destruct (z_array _ [] data) as [raw| | |] eqn:Hraw; try discriminate.
  destruct data; try discriminate. simpl in Hraw.
  apply ZodExtra.array_items_valid_inv in Hraw as [Hlen Hitems].
  intros Hall. apply process_all_loaded in Hall.
  exists items. split; [done |].
  split; [by rewrite <- (Forall2_length _ _ _ Hall) |].
  split; [by destruct pms |].
  intros k pm Hk.
  destruct (Forall2_lookup_r _ _ _ _ _ Hall Hk) as (m & Hm & Hpm).
  destruct (Hitems k m Hm) as (item & Hitem & Hvalid).
  destruct (processModel_fields _ _ Hpm) as (-> & _).
  exists item. by repeat split.
Qed.

(** X22: there is no per-model skip: if the [prepromptUrl] of any one
    model of a valid [MODELS] array cannot be fetched, [models] does not
    load at all. *)
Theorem X22_one_unreachable_preprompt_fails_the_load data raw m u :
  JSON_parse MODELS = Some data ->
  modelsRaw is_url HF_ACCESS_TOKEN OPENAI_API_KEY data = inl raw ->
  m ∈ raw -> prepromptUrl m = Some u -> u <> [] ->
  fetch_text u = None ->
  the_models = Failed PrepromptUnavailable.
Proof.
  intros Hjson Hraw Hin Hu Hne Hfetch. unfold models.
  rewrite Hjson, Hraw.
  apply (process_all_failed raw m PrepromptUnavailable Hin).
  unfold Models.processModel. rewrite Hu.
  destruct u as [|c r]; [done |]. by rewrite Hfetch.
Qed.

Lemma processModel_parameters m pm :
  processModel m = Loaded pm ->
  forall k, k <> js "stop_sequences" ->
    pm_parameters pm !! k
    = match parameters m with
      | Some c => parameters_data c !! k
      | None => None
      end.
Proof.
  unfold Models.processModel. intros H k Hk.
  assert (pm_parameters pm
          = <[js "stop_sequences" :=
                match parameters m with
                | Some c =>
                    match stop c with
                    | Some l => JArr (map JStr l)
                    | None => JUndef
                    end
                | None => JUndef
                end]>
              (match parameters m with
               | Some c => parameters_data c
               | None => ∅
               end)) as ->.
  { destruct (prepromptUrl m) as [[|c r]|];
      try destruct (fetch_text (c :: r)); try discriminate;
      by injection H as <-. }
  rewrite lookup_insert_ne by done. by destruct (parameters m).
Qed.

Lemma parameters_data_unknown c k :
  k ∉ map js parameters_keys ->
  parameters_data c !! k = unknown_keys c !! k.
Proof.
  intros Hk. simpl in Hk.
  repeat (apply not_elem_of_cons in Hk as [? Hk]).
  unfold parameters_data, opt_num.
  destruct (stop c), (top_p c), (top_k c), (repetition_penalty c);
    by rewrite !lookup_insert_ne by done.
Qed.

Lemma parsed_unknown_keys p po c k v :
  parametersConfig is_url p (JObj po) = Valid c ->
  unknown_keys c !! k = Some v <->
  po !! k = Some v /\ v <> JUndef /\ k <> js "__proto__" /\
  k ∉ map js parameters_keys.
Proof.
  unfold parametersConfig, z_object. intros H. peel H.
  injection Hfield as <-. simpl. apply passthrough_lookup_Some.
Qed.

Lemma parsed_parameters p o po m :
  the_modelConfig p (JObj o) = Valid m ->
  get o "parameters" = JObj po ->
  exists c,
    parameters m = Some c /\
    parametersConfig is_url (p ++ [Key (js "parameters")]) (JObj po)
    = Valid c.
Proof.
  unfold modelConfig, z_object. intros H Hpo. peel H.
  unfold field in Hfield. rewrite Hpo in Hfield.
  apply ZodExtra.z_optional_valid_inv in Hfield
    as [[? _] | (_ & c & -> & Hc)]; [done |].
  by exists c.
Qed.

(** X26: a generation parameter written in the [parameters] of the
    default model's configuration under a name that the schema does not
    know, other than [__proto__], [stop_sequences], [inputs] and
    [return_full_text], and holding a value, is kept by the parsing,
    kept by [processModel], and sent as it is in the body of the request
    to a TGI or SageMaker endpoint when the caller passes no parameters
    of its own. (Of the four names, zod drops the first and the code
    writes the other three itself.) *)
Theorem X26_unknown_parameters_reach_the_backend
    (env : Generation.Env) (randomEndpoint : Endpoint)
    (prompt : jstring) p o po m pm k v :
  the_modelConfig p (JObj o) = Valid m ->
  get o "parameters" = JObj po ->
  po !! k = Some v ->
  v <> JUndef ->
  k ∉ map js (parameters_keys ++
              ["__proto__"; "stop_sequences"; "inputs";
               "return_full_text"]%string) ->
  processModel m = Loaded pm ->
  Generation.is_openai randomEndpoint = false ->
  exists call body,
    (Generation.generateFromDefaultEndpoint env (as_backend pm)
       randomEndpoint prompt None []).2 = [call] /\
    Observations.call_body call = Some body /\
    body !! k = Some v.
Proof.
  intros Hm Hpo Hv Hdef Hk Hpm Hep.
  destruct (parsed_parameters p o po m Hm Hpo) as (c & Hc & Hvalid).
  rewrite map_app in Hk. apply not_elem_of_app in Hk as [Hknown Hk].
  simpl in Hk. repeat (apply not_elem_of_cons in Hk as [? Hk]).
  eexists _, _. split; [apply GenerationProps.generate_calls_once |].
  split; [by destruct randomEndpoint |].
  unfold Generation.request_body.
  rewrite lookup_insert_ne by done.
  rewrite GenerationProps.newParameters_lookup.
  rewrite bool_decide_eq_false_2 by done. simpl.
  rewrite lookup_empty.
  rewrite (processModel_parameters m pm Hpm) by done.
  rewrite Hc, parameters_data_unknown by done.
  by apply (parsed_unknown_keys _ _ _ _ _ Hvalid).
Qed.

Lemma parsed_parameters_some p data m c :
  the_modelConfig p data = Valid m ->
  parameters m = Some c ->
  exists p' po, parametersConfig is_url p' (JObj po) = Valid c.
Proof.
  destruct data as [| | | | | |o]; try discriminate.
  unfold modelConfig, z_object. intros H. peel H. simpl. intros ->.
  unfold field in Hfield.
  apply ZodExtra.z_optional_valid_inv in Hfield
    as [[_ ?] | (_ & c' & [= <-] & Hc)]; [done |].
  destruct (get o "parameters") as [| | | | | |po];
    try (unfold parametersConfig, z_object in Hc; discriminate Hc).
  eexists _, _. exact Hc.
Qed.

Lemma omap_JStr (l : list jstring) :
  omap (fun v => match v with JStr s => Some s | _ => None end)
    (map JStr l) = l.
Proof. induction l as [|s l IH]; [done |]. simpl. f_equal. apply IH. Qed.

Lemma parsed_stop_lookup p po c :
  parametersConfig is_url p (JObj po) = Valid c ->
  parameters_data c !! js "stop"
  = (fun l => JArr (map JStr l)) <$> stop c.
Proof.
  intros H. unfold parameters_data, opt_num.
  rewrite !lookup_insert_ne
    by (let HH := fresh in intros HH; vm_compute in HH; discriminate HH).
  destruct (stop c) as [l|] eqn:Hstop; [by rewrite lookup_insert_eq |].
  assert (unknown_keys c !! js "stop" = None) as Hunknown.
  { destruct (unknown_keys c !! js "stop") as [v |] eqn:Hv; [| done].
    apply (parsed_unknown_keys _ _ _ _ _ H) in Hv as (_ & _ & _ & Hv).
    exfalso. apply Hv. simpl.
    repeat (apply elem_of_cons; first [by left | right]). }
  destruct (top_p c), (top_k c), (repetition_penalty c); simpl;
    rewrite ?lookup_insert_ne
      by (let HH := fresh in intros HH; vm_compute in HH;
          discriminate HH);
    done.
Qed.

(** X27: when the caller passes no parameters, the stop sequences that
    the post-processing trims are exactly the [stop] list of the default
    model's configuration, and none when the configuration has no
    [parameters] or no [stop]. *)
Theorem X27_configured_stop_sequences_are_trimmed p data m pm :
  the_modelConfig p data = Valid m ->
  processModel m = Loaded pm ->
  Generation.stop_sequences
    (Generation.newParameters (model_parameters (as_backend pm)) None)
  = match parameters m with
    | Some c => default [] (stop c)
    | None => []
    end.
Proof.
  intros Hm Hpm.
  unfold Generation.stop_sequences, get.
  rewrite GenerationProps.newParameters_lookup.
  rewrite bool_decide_eq_false_2
    by (let HH := fresh in intros HH; vm_compute in HH; discriminate HH).
  simpl. rewrite lookup_empty.
  rewrite (processModel_parameters m pm Hpm)
    by (let HH := fresh in intros HH; vm_compute in HH; discriminate HH).
  destruct (parameters m) as [c|] eqn:Hc; [| done].
  destruct (parsed_parameters_some p data m c Hm Hc) as (p' & po & Hvalid).
  rewrite (parsed_stop_lookup p' po c Hvalid).
  destruct (stop c) as [l|]; simpl; [apply omap_JStr | done].
Qed.

Local Abbreviation the_oldModels :=
  (oldModels is_url OLD_MODELS JSON_parse).

Lemma parsed_old_name_nonempty p data m :
  oldModelConfig is_url p data = Valid m -> old_name m <> [].
Proof.
  destruct data; try discriminate. unfold oldModelConfig, z_object.
  intros H. peel H.
  apply ZodExtra.z_string_valid_inv in Hfield0 as [_ Hn].
  simpl. intros Heq. rewrite Heq in Hn. discriminate Hn.
Qed.


(** X24: [validateModel] of an empty list throws; of a non-empty list it
    gives a check that accepts exactly the strings that are the id of
    one of the models, and returns the string it accepted. *)
Theorem X24_validateModel_accepts_exactly_the_ids
    (ms : list (ProcessedModel Render)) :
  match validateModel ms with
  | Thrown e => ms = [] /\ e = TypeError
  | Returned check =>
      ms <> [] /\
      forall data s,
        check data = EnumValue s <->
        data = JStr s /\ exists pm, pm ∈ ms /\ pm_id pm = s
  end.
Proof.
  destruct ms as [|first rest]; simpl; [done |].
  split; [done |]. intros data s. unfold z_enum.
  change (pm_id first :: map pm_id rest) with (pm_id <$> first :: rest).
  destruct data; try (split; [discriminate | by intros [? _]]).
  case_bool_decide as Hin.
  - apply list_elem_of_fmap in Hin as (pm & -> & Hpm). split.
    + intros [= <-]. split; [done |]. by exists pm.
    + by intros [[= <-] _].
  - split; [discriminate |]. intros [[= <-] (pm & Hpm & Hid)].
    destruct Hin. apply list_elem_of_fmap. by exists pm.
Qed.

Local Abbreviation the_smallModel :=
  (smallModel is_url HF_ACCESS_TOKEN OPENAI_API_KEY TASK_MODEL JSON_parse
     fetch_text Render compileTemplate).

(** X25: without [TASK_MODEL] the small model is the default model; and
    when [TASK_MODEL] is the name of a loaded model, the small model is
    the first loaded model of that name, and [TASK_MODEL] is not parsed
    as a configuration. *)
Theorem X25_smallModel_by_name (ms : list (ProcessedModel Render)) :
  (TASK_MODEL = [] -> the_smallModel ms = Loaded (defaultModel ms)) /\
  (TASK_MODEL <> [] ->
   forall pm, pm ∈ ms -> name (config pm) = TASK_MODEL ->
     exists before found after,
       ms = before ++ found :: after /\
       name (config found) = TASK_MODEL /\
       Forall (fun other => name (config other) <> TASK_MODEL) before /\
       the_smallModel ms = Loaded (Some found)).
Proof.
  unfold smallModel. split; [by intros -> |].
  intros Hne pm Hin Hname.
  destruct TASK_MODEL as [|c r] eqn:Htask; [done |]. clear Hne.
  unfold find_by_name.
  induction ms as [|m ms IH]; [by apply elem_of_nil in Hin |].
  simpl. case_bool_decide as Hm.
  - exists [], m, ms. repeat split; try done.
  - apply elem_of_cons in Hin as [-> | Hin]; [done |].
    destruct (IH Hin) as (before & found & after & -> & Hf & Hb & Hs).
    exists (m :: before), found, after. repeat split; try done.
    by constructor.
Qed.
End Exports.
End ModelsExtra.

(** ** Properties of the configuration with a default-model flag *)

Module FlaggedModelsExtra.
Import Zod Models FlaggedModels.

Ltac peel H :=
  lazymatch type of H with
  | _ <*> _ = Valid _ =>
      let g := fresh "g" in
      let a := fresh "a" in
      let Ha := fresh "Hfield" in
      apply ZodExtra.ap_valid_inv in H as (g & a & H & Ha & ->); peel H
  | Valid _ = Valid _ => injection H as <-
  end.

Section Exports.
Variable is_url : jstring -> bool.
Variables HF_ACCESS_TOKEN OPENAI_API_KEY : jstring.
Variable MODELS : jstring.
Variable JSON_parse : jstring -> option jsval.
Variable fetch_text : jstring -> option jstring.
Variable Render : Type.
Variable compileTemplate : jstring -> FlaggedConfig -> Render.

Local Abbreviation the_config :=
  (flaggedConfig is_url HF_ACCESS_TOKEN OPENAI_API_KEY).
Local Abbreviation process :=
  (process fetch_text Render compileTemplate).
Local Abbreviation process_each :=
  (process_each fetch_text Render compileTemplate).
Local Abbreviation the_models :=
  (flaggedModels is_url HF_ACCESS_TOKEN OPENAI_API_KEY MODELS JSON_parse
     fetch_text Render compileTemplate).

(** X28: [getDefaultModel] returns the first model whose [defaultModel]
    flag is set, and throws its error exactly when no model has the
    flag. *)
Theorem X28_getDefaultModel_is_the_first_flagged
    (ms : list (FlaggedModel Render)) :
  match getDefaultModel ms with
  | Returned model =>
      exists before after,
        ms = before ++ model :: after /\
        fc_defaultModel (fm_config model) = true /\
        Forall (fun other => fc_defaultModel (fm_config other) = false)
          before
  | Thrown e =>
      e = Error no_default_model_message /\
      Forall (fun other => fc_defaultModel (fm_config other) = false) ms
  end.
Proof.
  unfold getDefaultModel. induction ms as [|m ms IH]; simpl; [done |].
  destruct (fc_defaultModel (fm_config m)) eqn:Hm.
  - exists [], ms. by repeat split.
  - destruct (find _ ms) as [model|].
    + destruct IH as (before & after & -> & Hflag & Hbefore).
      exists (m :: before), after. repeat split; try done.
      by constructor.
    + destruct IH as [_ Hall]. split; [done |]. by constructor.
Qed.

Lemma getDefaultModel_unflagged (ms : list (FlaggedModel Render)) :
  Forall (fun other => fc_defaultModel (fm_config other) = false) ms ->
  getDefaultModel ms = Thrown (Error no_default_model_message).
Proof.
  unfold getDefaultModel. induction 1 as [|m ms Hm _ IH]; simpl; [done |].
  rewrite Hm. exact IH.
Qed.

Lemma flag_defaults_to_false p o m :
  the_config p (JObj o) = Valid m ->
  o !! js "defaultModel" = None ->
  fc_defaultModel m = false.
Proof.
  unfold flaggedConfig, z_object. intros H Hflag. peel H. simpl.
  match goal with
  | Hf : field _ _ "defaultModel" _ = Valid _ |- _ =>
      unfold field, get in Hf; rewrite Hflag in Hf; simpl in Hf;
      by injection Hf as <-
  end.
Qed.

Lemma process_config m fm : process m = Loaded fm -> fm_config fm = m.
Proof.
  unfold FlaggedModels.process.
  destruct (fc_prepromptUrl m) as [[|c r]|];
    try destruct (fetch_text (c :: r)); try discriminate;
    by intros [= <-].
Qed.

Lemma process_each_loaded ms fms :
  process_each ms = Loaded fms ->
  Forall2 (fun m fm => fm_config fm = m) ms fms.
Proof.
  revert fms; induction ms as [|m ms IH]; intros fms; simpl.
  - intros [= <-]. constructor.
  - destruct (process m) as [fm|] eqn:Hfm; [| discriminate].
    destruct (process_each ms) as [rest|]; [| discriminate].
    intros [= <-]. constructor; [by apply process_config | by apply IH].
Qed.

(** X29: the flag is off unless it is written: when no element of the
    [MODELS] array has a [defaultModel] key, the models may well load,
    but [getDefaultModel] throws. *)
Theorem X29_no_flag_in_the_config_no_default_model
    (items : list jsval) (ms : list (FlaggedModel Render)) :
  JSON_parse MODELS = Some (JArr items) ->
  Forall (fun item =>
            exists o, item = JObj o /\ o !! js "defaultModel" = None)
    items ->
  the_models = Loaded ms ->
  getDefaultModel ms = Thrown (Error no_default_model_message).
Proof.
  intros Hjson Hitems. unfold flaggedModels, flaggedModelsRaw, parse.
  rewrite Hjson.
  destruct (z_array _ [] (JArr items)) as [raw| | |] eqn:Hraw;
    try discriminate.
  simpl in Hraw.
  apply ZodExtra.array_items_valid_inv in Hraw as [_ Hraw].
  intros Hall. apply process_each_loaded in Hall.
  assert (Forall (fun other => fc_defaultModel (fm_config other) = false)
            ms) as Hnone.
  { apply Forall_lookup. intros k fm Hk.
    destruct (Forall2_lookup_r _ _ _ _ _ Hall Hk) as (m & Hm & ->).
    destruct (Hraw k _ Hm) as (item & Hitem & Hvalid).
    rewrite Forall_lookup in Hitems.
    destruct (Hitems k item Hitem) as (o & -> & Hflag).
    exact (flag_defaults_to_false _ o _ Hvalid Hflag). }
  by apply getDefaultModel_unflagged.
Qed.
End Exports.
End FlaggedModelsExtra.

(** ** The properties of the configuration on small configurations *)

Module ConfigWitnesses.
Import Zod Models FlaggedModels ConfigExamples.

Lemma X15_parsed_endpoint_witness :
  combinedEndpoint starts_with_http (js "hf") (js "sk") [] (JObj tgi_object)
  = Valid (TGI false (js "http://tgi/") (js "Bearer hf") 1) /\
  (0 < 1)%Q.
Proof.
  split; [reflexivity |].
  apply (ZodExtra.X15_parsed_endpoint_is_well_formed starts_with_http
           (js "hf") (js "sk") [] (JObj tgi_object)
           (TGI false (js "http://tgi/") (js "Bearer hf") 1)).
  reflexivity.
Defined.

Lemma X16_endpoint_without_host_witness :
  combinedEndpoint starts_with_http (js "hf") (js "sk") [] (JObj tgi_object)
  = Valid (TGI false (js "http://tgi/") (js "Bearer " ++ js "hf") 1).
Proof.
  apply (ZodExtra.X16_endpoint_without_host_is_tgi starts_with_http
           (js "hf") (js "sk") tgi_object [] (js "http://tgi/"));
    reflexivity.
Defined.

Lemma X17_unknown_host_witness :
  get azure_object "host" = JStr (js "azure") /\
  combinedEndpoint starts_with_http (js "hf") (js "sk") []
    (JObj azure_object)
  <> Valid (TGI true (js "http://tgi/") (js "Bearer hf") 1).
Proof.
  split; [reflexivity |].
  apply (ZodExtra.X17_unknown_host_is_rejected starts_with_http
           (js "hf") (js "sk") azure_object []);
    vm_compute; discriminate.
Defined.

Lemma X18_model_without_name_witness :
  exists issues,
    parse (modelConfig starts_with_http (js "hf") (js "sk")) (JObj ∅)
    = inr issues /\
    mkIssue invalid_type [Key (js "name")] ∈ issues.
Proof.
  apply (ZodExtra.X18_model_without_name_is_rejected starts_with_http
           (js "hf") (js "sk") ∅).
  reflexivity.
Defined.

Lemma X19_parsed_parameters_witness :
  parametersConfig starts_with_http [] (JObj parameters_object)
  = Valid example_parameters /\
  (0 <= 1 # 2 <= 1)%Q.
Proof.
  split; [vm_compute; reflexivity |].
  apply (ZodExtra.X19_parsed_parameters_are_in_range starts_with_http []
           (JObj parameters_object) example_parameters).
  vm_compute. reflexivity.
Defined.

Lemma example_model_parses (p : list path_item) :
  modelConfig starts_with_http (js "hf") (js "sk") p (JObj model_object)
  = Valid example_parsed_model.
Proof. vm_compute. reflexivity. Qed.

Lemma example_model_is_processed :
  processModel unreachable unit no_render example_parsed_model
  = Loaded example_processed_model.
Proof. reflexivity. Qed.

Lemma X20_processed_model_witness :
  pm_id example_processed_model <> [].
Proof.
  apply (ModelsExtra.X20_processed_model_is_identified starts_with_http
           (js "hf") (js "sk") unreachable unit no_render []
           (JObj model_object) example_parsed_model
           example_processed_model (example_model_parses [])
           example_model_is_processed).
Defined.

Lemma X21_models_follow_the_array_witness :
  exists items,
    parse_as (JArr [JObj model_object]) (js "MODELS") = Some (JArr items) /\
    length [example_processed_model] = length items.
Proof.
  destruct (ModelsExtra.X21_models_follow_the_array starts_with_http
              (js "hf") (js "sk") (js "MODELS")
              (parse_as (JArr [JObj model_object])) unreachable unit
              no_render [example_processed_model])
    as (items & Hjson & Hlen & _).
  - unfold models, modelsRaw, parse, parse_as, z_array, array_items.
    rewrite example_model_parses. reflexivity.
  - by exists items.
Defined.

Lemma X22_unreachable_preprompt_witness :
  models starts_with_http (js "hf") (js "sk") (js "MODELS")
    (parse_as (JArr [JObj model_with_preprompt_url]))
    unreachable unit no_render
  = Failed PrepromptUnavailable.
Proof.
  eapply (ModelsExtra.X22_one_unreachable_preprompt_fails_the_load
            starts_with_http (js "hf") (js "sk") (js "MODELS")
            (parse_as (JArr [JObj model_with_preprompt_url]))
            unreachable unit no_render
            (JArr [JObj model_with_preprompt_url])
            [mkModelConfig None (js "m") None None None None None None
               [] [] [] [] [] [] (Some (js "http://p/"))
               default_chatPromptTemplate None None None]
            _ (js "http://p/")).
  - reflexivity.
  - vm_compute. reflexivity.
  - left.
  - reflexivity.
  - discriminate.
  - reflexivity.
Defined.


Lemma X25_smallModel_witness :
  smallModel starts_with_http (js "hf") (js "sk") [] (parse_as JNull)
    unreachable unit no_render [example_processed_model]
  = Loaded (Some example_processed_model).
Proof.
  apply (ModelsExtra.X25_smallModel_by_name starts_with_http (js "hf")
           (js "sk") [] (parse_as JNull) unreachable unit no_render
           [example_processed_model]).
  reflexivity.
Defined.

Lemma X26_unknown_parameters_witness :
  exists call body,
    (Generation.generateFromDefaultEndpoint
       (Examples.example_env (Returned (Generation.mkResponse 204 None)))
       (as_backend example_processed_model) Examples.example_tgi
       (js "Hello") None []).2
    = [call] /\
    Observations.call_body call = Some body /\
    body !! js "do_sample" = Some (JBool true).
Proof.
  apply (ModelsExtra.X26_unknown_parameters_reach_the_backend
           starts_with_http (js "hf") (js "sk") unreachable unit no_render
           (Examples.example_env
              (Returned (Generation.mkResponse 204 None)))
           Examples.example_tgi (js "Hello") [] model_object
           parameters_object example_parsed_model example_processed_model
           (js "do_sample") (JBool true)
           (example_model_parses []) eq_refl eq_refl);
    [discriminate | | exact example_model_is_processed | reflexivity].
  vm_compute. intros H.
  repeat (apply elem_of_cons in H as [H | H]; [discriminate H |]).
  by apply elem_of_nil in H.
Defined.

Lemma X27_configured_stop_witness :
  Generation.stop_sequences
    (Generation.newParameters
       (model_parameters (as_backend example_processed_model)) None)
  = [js "###"].
Proof.
  exact (ModelsExtra.X27_configured_stop_sequences_are_trimmed
           starts_with_http (js "hf") (js "sk") unreachable unit no_render
           [] (JObj model_object) example_parsed_model
           example_processed_model (example_model_parses [])
           example_model_is_processed).
Defined.

Lemma X29_no_flag_witness :
  flaggedModels starts_with_http (js "hf") (js "sk") (js "MODELS")
    (parse_as (JArr [JObj model_with_preprompt_url])) serves_hi unit
    no_flagged_render
  = Loaded [example_flagged_model] /\
  getDefaultModel [example_flagged_model]
  = Thrown (Error no_default_model_message).
Proof.
  assert (flaggedModels starts_with_http (js "hf") (js "sk") (js "MODELS")
            (parse_as (JArr [JObj model_with_preprompt_url])) serves_hi
            unit no_flagged_render
          = Loaded [example_flagged_model]) as Hload
    by (vm_compute; reflexivity).
  split; [exact Hload |].
  apply (FlaggedModelsExtra.X29_no_flag_in_the_config_no_default_model
           starts_with_http (js "hf") (js "sk") (js "MODELS")
           (parse_as (JArr [JObj model_with_preprompt_url])) serves_hi
           unit no_flagged_render
           [JObj model_with_preprompt_url] [example_flagged_model]).
  - reflexivity.
  - repeat constructor. by exists model_with_preprompt_url.
  - exact Hload.
Defined.
End ConfigWitnesses.

(** ** Generation: the answer without body *)

Module GenerationPaths.
Import OpenAIStream Generation.


End GenerationPaths.
